(** * Jobly back end: the SQL fragment builders and the Company and Job models

    A shallow embedding of [helpers/sql.js], [models/company.js] and
    [models/job.js].  JavaScript values are a small inductive type, objects
    are association lists kept in the order [Object.keys] enumerates them,
    thrown exceptions are the [Err] side of a result type, and the
    PostgreSQL server behind [db.query] is a record of two tables with a log
    of the statements it was sent. *)

From Stdlib Require Import String Ascii List ZArith Bool Arith Lia.
From Stdlib Require Import Decimal DecimalString DecimalNat DecimalFacts.
From Stdlib Require Import Permutation Sorted.
Import ListNotations.
Open Scope list_scope.
Open Scope string_scope.

(** ** JavaScript values *)

(** The primitive values the models pass around.  Numbers are the integers
    (salaries, head counts, ids), which ToString prints in plain digits;
    other doubles are outside the model. *)
Inductive value : Type :=
| VUndefined
| VNull
| VBool (b : bool)
| VNum (n : Z)
| VStr (s : string).

(** Plain objects used as maps.  The list order is the own-key enumeration
    order of [Object.keys], which for keys that are not array indices is
    insertion order.  Members inherited from [Object.prototype] are not
    modelled. *)
Definition object : Type := list (string * value).

(** What a function may be called with: a primitive (a missing argument is
    [Prim VUndefined]) or a plain object; [a instanceof Object] tells the
    two apart. *)
Inductive jsarg : Type :=
| Prim (v : value)
| Obj (o : object).

Definition Object_keys (o : object) : list string := map fst o.
Definition Object_values (o : object) : list value := map snd o.

(** [o[k]]: a missing property reads as [undefined]. *)
Fixpoint prop (o : object) (k : string) : value :=
  match o with
  | [] => VUndefined
  | (k', v) :: o' => if String.eqb k' k then v else prop o' k
  end.

(** Decimal rendering of an array length or index. *)
Definition dec (n : nat) : string := NilEmpty.string_of_uint (Nat.to_uint n).

(** ToString, as a template literal applies it. *)
Definition to_string (v : value) : string :=
  match v with
  | VUndefined => "undefined"
  | VNull => "null"
  | VBool true => "true"
  | VBool false => "false"
  | VNum n => NilEmpty.string_of_int (Z.to_int n)
  | VStr s => s
  end.

(** ToBoolean *)
Definition truthy (v : value) : bool :=
  match v with
  | VUndefined | VNull => false
  | VBool b => b
  | VNum n => negb (Z.eqb n 0)
  | VStr s => negb (String.eqb s EmptyString)
  end.

(** [a || b] *)
Definition js_or (a b : value) : value := if truthy a then a else b.

(** [v !== undefined] *)
Definition defined (v : value) : bool :=
  match v with
  | VUndefined => false
  | _ => true
  end.

(** [v === true] *)
Definition is_true (v : value) : bool :=
  match v with
  | VBool true => true
  | _ => false
  end.

(** The double quote character, as a one-character string. *)
Definition dquote : string := String (ascii_of_nat 34) EmptyString.

(** [arr.join(sep)] on an array of strings. *)
Definition join (sep : string) (l : list string) : string := String.concat sep l.

(** [arr.map((x, idx) => f x idx)] *)
Fixpoint mapi_from {A B : Type} (f : A -> nat -> B) (i : nat) (l : list A) : list B :=
  match l with
  | [] => []
  | x :: l' => f x i :: mapi_from f (S i) l'
  end.

Definition mapi {A B : Type} (f : A -> nat -> B) (l : list A) : list B :=
  mapi_from f 0 l.

(** ** Exceptions *)

Inductive error : Type :=
| BadRequestError (message : string)
| NotFoundError (message : string)
| TypeError
| DatabaseError (code : string).

Inductive result (A : Type) : Type :=
| Ok (a : A)
| Err (e : error).

Arguments Ok {A} a.
Arguments Err {A} e.

(** ** helpers/sql.js *)

Record update_fragment : Type := {
  setCols : string;
  values : list value
}.

(** [jsToSql[colName] || colName], as the template literal renders it. *)
Definition physical (jsToSql : object) (colName : string) : string :=
  to_string (js_or (prop jsToSql colName) (VStr colName)).

(** The [cols] array of [sqlForPartialUpdate]. *)
Definition cols (keys : list string) (jsToSql : object) : list string :=
  mapi (fun colName idx =>
          dquote ++ physical jsToSql colName ++ dquote ++ "=$" ++ dec (idx + 1))
       keys.

Definition sqlForPartialUpdate (dataToUpdate jsToSql : object) : result update_fragment :=
  let keys := Object_keys dataToUpdate in
  if Nat.eqb (length keys) 0 then Err (BadRequestError "No data")
  else Ok {| setCols := join ", " (cols keys jsToSql);
             values := Object_values dataToUpdate |}.

(** ** The PostgreSQL server behind [db.query]

    The schema file and the driver are not part of the models; what follows
    is the part of their behaviour the models rely on.  The fixed text of
    each statement of the source is embedded as a function over the tables;
    the fragments the source builds at run time ([whereClause], [setCols],
    the key placeholder) arrive as text and are parsed here, the way the
    server parses them. *)

(** *** Text *)

(** [split_on c s]: the pieces of [s] between occurrences of [c]. *)
Fixpoint split_on (c : ascii) (s : string) : list string :=
  match s with
  | EmptyString => [EmptyString]
  | String a r =>
      let rest := split_on c r in
      if Ascii.eqb a c then EmptyString :: rest
      else match rest with
           | t :: ts => String a t :: ts
           | [] => [String a EmptyString]
           end
  end.

(** A non-empty run of decimal digits, read as a natural number. *)
Definition parse_nat (s : string) : option nat :=
  match s with
  | EmptyString => None
  | _ => option_map Nat.of_uint (NilEmpty.uint_of_string s)
  end.

(** [strip_prefix p s]: the rest of [s] after the prefix [p]. *)
Fixpoint strip_prefix (p s : string) : option string :=
  match p with
  | EmptyString => Some s
  | String a p' =>
      match s with
      | EmptyString => None
      | String b s' => if Ascii.eqb a b then strip_prefix p' s' else None
      end
  end.

(** A placeholder [$n]. *)
Definition parse_placeholder (s : string) : option nat :=
  match strip_prefix "$" s with
  | Some ds => parse_nat ds
  | None => None
  end.

(** *** Column types and values *)

Inductive coltype : Type := TInt | TText | TNumeric.

(** A NUMERIC value: [unscaled / 10 ^ scale]. *)
Record numeric : Type := { unscaled : Z; scale : nat }.

Inductive dbval : Type :=
| DNull
| DInt (z : Z)
| DText (s : string)
| DNumeric (q : numeric).

(** SQLSTATE codes of the errors the server raises. *)
Definition syntax_error : string := "42601".
Definition undefined_column : string := "42703".
Definition undefined_function : string := "42883".
Definition invalid_text_representation : string := "22P02".
Definition numeric_value_out_of_range : string := "22003".
Definition protocol_violation : string := "08P01".
Definition not_null_violation : string := "23502".
Definition integrity_constraint_violation : string := "23000".

(** How node-postgres sends a JavaScript parameter: [null] and [undefined]
    as NULL ([None]), anything else as its text. *)
Definition pg_text (v : value) : option string :=
  match v with
  | VUndefined | VNull => None
  | _ => Some (to_string v)
  end.

(** Optional sign, then the unsigned rest. *)
Definition split_sign (s : string) : bool * string :=
  match s with
  | String c r =>
      if Ascii.eqb c "-" then (true, r)
      else if Ascii.eqb c "+" then (false, r)
      else (false, s)
  | EmptyString => (false, s)
  end.

Definition apply_sign (neg : bool) (z : Z) : Z := if neg then Z.opp z else z.

(** Input of a 32-bit INTEGER from text (surrounding blanks are not modelled). *)
Definition pg_int4in (s : string) : result Z :=
  let (neg, body) := split_sign s in
  match parse_nat body with
  | None => Err (DatabaseError invalid_text_representation)
  | Some n =>
      let z := apply_sign neg (Z.of_nat n) in
      if ((-2147483648 <=? z) && (z <=? 2147483647))%Z then Ok z
      else Err (DatabaseError numeric_value_out_of_range)
  end.

(** Input of a NUMERIC from text: digits with an optional fraction (exponents
    and the special values are not modelled). *)
Definition pg_numeric_in (s : string) : result numeric :=
  let (neg, body) := split_sign s in
  let bad := Err (DatabaseError invalid_text_representation) in
  match split_on "." body with
  | [ip] =>
      match parse_nat ip with
      | Some n => Ok {| unscaled := apply_sign neg (Z.of_nat n); scale := 0 |}
      | None => bad
      end
  | [ip; fp] =>
      match parse_nat (ip ++ fp) with
      | Some n => Ok {| unscaled := apply_sign neg (Z.of_nat n); scale := String.length fp |}
      | None => bad
      end
  | _ => bad
  end.

(** A parameter read at the type of the column it is compared with or
    assigned to. *)
Definition coerce (ty : coltype) (v : value) : result dbval :=
  match pg_text v with
  | None => Ok DNull
  | Some s =>
      match ty with
      | TText => Ok (DText s)
      | TInt => match pg_int4in s with Ok z => Ok (DInt z) | Err e => Err e end
      | TNumeric => match pg_numeric_in s with Ok q => Ok (DNumeric q) | Err e => Err e end
      end
  end.

(** *** Comparison operators *)

Inductive sqlop : Type := OpEq | OpGe | OpLe | OpGt | OpILike.

Definition numeric_compare (a b : numeric) : comparison :=
  (unscaled a * 10 ^ Z.of_nat (scale b) ?= unscaled b * 10 ^ Z.of_nat (scale a))%Z.

Definition cmp_holds (op : sqlop) (c : comparison) : bool :=
  match op, c with
  | OpEq, Eq => true
  | OpGe, (Eq | Gt) => true
  | OpLe, (Eq | Lt) => true
  | OpGt, Gt => true
  | _, _ => false
  end.

(** ASCII lower case, for ILIKE. *)
Definition lower (c : ascii) : ascii :=
  let n := nat_of_ascii c in
  if ((65 <=? n) && (n <=? 90))%nat then ascii_of_nat (n + 32) else c.

(** LIKE matching: [%] is any run of characters, [_] any one character, a
    backslash makes the next character literal.  (A pattern ending in a lone
    backslash is an error on the server; no pattern the models build ends in
    one, and it matches nothing here.) *)
Fixpoint like_match (p : list ascii) : list ascii -> bool :=
  match p with
  | [] => fun s => match s with [] => true | _ :: _ => false end
  | c :: p' =>
      if Ascii.eqb c "%" then
        fix star (s : list ascii) : bool :=
          like_match p' s || match s with [] => false | _ :: s' => star s' end
      else if Ascii.eqb c "_" then
        fun s => match s with [] => false | _ :: s' => like_match p' s' end
      else if Ascii.eqb c "\" then
        match p' with
        | [] => fun _ => false
        | e :: p'' =>
            fun s => match s with
                     | [] => false
                     | d :: s' => Ascii.eqb e d && like_match p'' s'
                     end
        end
      else
        fun s => match s with
                 | [] => false
                 | d :: s' => Ascii.eqb c d && like_match p' s'
                 end
  end.

Definition ilike (s pattern : string) : bool :=
  like_match (map lower (list_ascii_of_string pattern))
             (map lower (list_ascii_of_string s)).

(** [lhs op rhs] in SQL's three-valued logic, read as selected or not: a NULL
    on either side selects nothing.  [le] is the collation's order on text. *)
Definition eval_op (le : string -> string -> bool) (op : sqlop) (lhs rhs : dbval) : bool :=
  match lhs, rhs with
  | DInt a, DInt b => cmp_holds op (Z.compare a b)
  | DNumeric a, DNumeric b => cmp_holds op (numeric_compare a b)
  | DText a, DText b =>
      match op with
      | OpILike => ilike a b
      | OpEq => String.eqb a b
      | OpGe => le b a
      | OpLe => le a b
      | OpGt => le b a && negb (String.eqb a b)
      end
  | _, _ => false
  end.

(** *** Statements with placeholders *)

Fixpoint mapM {A B : Type} (f : A -> result B) (l : list A) : result (list B) :=
  match l with
  | [] => Ok []
  | x :: l' =>
      match f x with
      | Err e => Err e
      | Ok y => match mapM f l' with
                | Err e => Err e
                | Ok ys => Ok (y :: ys)
                end
      end
  end.

Definition schema : Type := list (string * coltype).

Fixpoint lookup_col (sch : schema) (c : string) : option coltype :=
  match sch with
  | [] => None
  | (c', ty) :: sch' => if String.eqb c' c then Some ty else lookup_col sch' c
  end.

(** A statement must use each of the parameters [$1 .. $n] it is sent, and
    no other. *)
Definition placeholders_ok (refs : list nat) (n : nat) : bool :=
  forallb (fun r => ((1 <=? r) && (r <=? n))%nat) refs
  && forallb (fun i => existsb (Nat.eqb i) refs) (seq 1 n).

(** The parameter behind [$n], read at type [ty]. *)
Definition bind_param (ty : coltype) (params : list value) (n : nat) : result dbval :=
  match nth_error params (n - 1) with
  | None => Err (DatabaseError protocol_violation)
  | Some v => coerce ty v
  end.

(** *** WHERE fragments *)

Inductive operand : Type :=
| OParam (n : nat)
| OLit (z : Z).

Record predicate : Type := { p_col : string; p_op : sqlop; p_arg : operand }.

Definition parse_op (s : string) : option sqlop :=
  if String.eqb s ">=" then Some OpGe
  else if String.eqb s "<=" then Some OpLe
  else if String.eqb s ">" then Some OpGt
  else if String.eqb s "=" then Some OpEq
  else if String.eqb s "ILIKE" then Some OpILike
  else None.

Definition parse_operand (s : string) : option operand :=
  match parse_placeholder s with
  | Some n => Some (OParam n)
  | None => option_map (fun n => OLit (Z.of_nat n)) (parse_nat s)
  end.

(** [col op arg AND col op arg ...], at least one predicate. *)
Fixpoint parse_conj (tokens : list string) : option (list predicate) :=
  match tokens with
  | c :: o :: a :: rest =>
      match parse_op o, parse_operand a with
      | Some op, Some arg =>
          let p := {| p_col := c; p_op := op; p_arg := arg |} in
          if String.eqb c EmptyString then None
          else match rest with
               | [] => Some [p]
               | k :: rest' =>
                   if String.eqb k "AND" then option_map (cons p) (parse_conj rest')
                   else None
               end
      | _, _ => None
      end
  | _ => None
  end.

(** The text interpolated between [FROM table] and [ORDER BY]: nothing, or
    [WHERE] and a conjunction.  [None] is a syntax error. *)
Definition parse_where (whereClause : string) : option (list predicate) :=
  match split_on " " whereClause with
  | [t] => if String.eqb t EmptyString then Some [] else None
  | w :: rest => if String.eqb w "WHERE" then parse_conj rest else None
  | [] => None
  end.

Definition placeholders_of (ps : list predicate) : list nat :=
  flat_map (fun p => match p_arg p with OParam n => [n] | OLit _ => [] end) ps.

Definition bind_pred (sch : schema) (params : list value) (p : predicate)
  : result (string * sqlop * dbval) :=
  match lookup_col sch (p_col p) with
  | None => Err (DatabaseError undefined_column)
  | Some ty =>
      let ill_typed :=
        match p_op p, ty with
        | OpILike, (TInt | TNumeric) => true
        | _, _ => false
        end in
      if ill_typed then Err (DatabaseError undefined_function)
      else
        match p_arg p with
        | OParam n =>
            match bind_param ty params n with
            | Ok d => Ok (p_col p, p_op p, d)
            | Err e => Err e
            end
        | OLit z =>
            match ty with
            | TInt => Ok (p_col p, p_op p, DInt z)
            | TNumeric => Ok (p_col p, p_op p, DNumeric {| unscaled := z; scale := 0 |})
            | TText => Err (DatabaseError undefined_function)
            end
        end
  end.

(** The rows of a table a WHERE fragment selects. *)
Definition select_where {R : Type} (sch : schema) (col : R -> string -> dbval)
    (le : string -> string -> bool) (whereClause : string) (params : list value)
    (rows : list R) : result (list R) :=
  match parse_where whereClause with
  | None => Err (DatabaseError syntax_error)
  | Some preds =>
      if placeholders_ok (placeholders_of preds) (length params) then
        match mapM (bind_pred sch params) preds with
        | Err e => Err e
        | Ok bound =>
            Ok (filter (fun r =>
                          forallb (fun b => match b with
                                            | (c, op, d) => eval_op le op (col r c) d
                                            end) bound)
                       rows)
        end
      else Err (DatabaseError protocol_violation)
  end.

(** [ORDER BY]: a stable insertion sort under the collation's order. *)
Fixpoint insert_by {A : Type} (le : A -> A -> bool) (x : A) (l : list A) : list A :=
  match l with
  | [] => [x]
  | y :: l' => if le x y then x :: l else y :: insert_by le x l'
  end.

Definition sort_by {A : Type} (le : A -> A -> bool) (l : list A) : list A :=
  fold_right (insert_by le) [] l.

(** *** SET fragments *)

(** The pieces between double quotes: [ident], then [=$n] and, when another
    assignment follows, a comma and a blank. *)
Fixpoint parse_assignments (parts : list string) : option (list (string * nat)) :=
  match parts with
  | ident :: sep :: rest =>
      if String.eqb ident EmptyString then None
      else
        match strip_prefix "=$" sep with
        | None => None
        | Some tail =>
            match rest with
            | [] => option_map (fun n => [(ident, n)]) (parse_nat tail)
            | _ :: _ =>
                match split_on "," tail with
                | [ds; sp] =>
                    if String.eqb sp " " then
                      match parse_nat ds, parse_assignments rest with
                      | Some n, Some l => Some ((ident, n) :: l)
                      | _, _ => None
                      end
                    else None
                | _ => None
                end
            end
        end
  | _ => None
  end.

Definition parse_set (setCols : string) : option (list (string * nat)) :=
  match split_on (ascii_of_nat 34) setCols with
  | first :: parts =>
      if String.eqb first EmptyString then parse_assignments parts else None
  | [] => None
  end.

Fixpoint has_dup (l : list string) : bool :=
  match l with
  | [] => false
  | x :: l' => existsb (String.eqb x) l' || has_dup l'
  end.

Definition bind_assignment (sch : schema) (params : list value) (a : string * nat)
  : result (string * dbval) :=
  match lookup_col sch (fst a) with
  | None => Err (DatabaseError undefined_column)
  | Some ty =>
      match bind_param ty params (snd a) with
      | Ok d => Ok (fst a, d)
      | Err e => Err e
      end
  end.

(** Rewrite the rows [matches] selects with [upd]; the first component is
    what RETURNING yields, the second the new table.  [None] when [upd]
    refuses a row. *)
Fixpoint update_rows {R : Type} (matches : R -> bool) (upd : R -> option R)
    (rows : list R) : option (list R * list R) :=
  match rows with
  | [] => Some ([], [])
  | r :: rows' =>
      match update_rows matches upd rows' with
      | None => None
      | Some (returned, table) =>
          if matches r then
            match upd r with
            | None => None
            | Some r' => Some (r' :: returned, r' :: table)
            end
          else Some (returned, r :: table)
      end
  end.

Fixpoint assign_all {R : Type} (set : R -> string -> dbval -> option R)
    (asg : list (string * dbval)) (r : R) : option R :=
  match asg with
  | [] => Some r
  | (c, d) :: asg' =>
      match set r c d with
      | None => None
      | Some r' => assign_all set asg' r'
      end
  end.

(** [UPDATE table SET setCols WHERE key = keyVarIdx RETURNING ...] over the
    rows of one table. *)
Definition update_where {R : Type} (sch : schema) (col : R -> string -> dbval)
    (set : R -> string -> dbval -> option R) (le : string -> string -> bool)
    (key : string) (setCols keyVarIdx : string) (params : list value)
    (rows : list R) : result (list R * list R) :=
  match parse_set setCols, parse_placeholder keyVarIdx with
  | Some asg, Some k =>
      if has_dup (map fst asg) then Err (DatabaseError syntax_error)
      else if placeholders_ok (k :: map snd asg) (length params) then
        match mapM (bind_assignment sch params) asg with
        | Err e => Err e
        | Ok bound =>
            match bind_assignment sch params (key, k) with
            | Err e => Err e
            | Ok (_, kd) =>
                match update_rows (fun r => eval_op le OpEq (col r key) kd)
                                  (assign_all set bound) rows with
                | None => Err (DatabaseError not_null_violation)
                | Some out => Ok out
                end
            end
        end
      else Err (DatabaseError protocol_violation)
  | _, _ => Err (DatabaseError syntax_error)
  end.

(** *** The two tables *)

(** A row of [jobs], also the object a query hands back for it (with the
    column [company_handle] under its alias [companyHandle]; node-postgres
    gives a NUMERIC to JavaScript as decimal text, the record keeps the
    number). *)
Record job : Type := {
  job_id : Z;
  job_title : string;
  job_salary : option Z;
  job_equity : option numeric;
  job_companyHandle : string
}.

(** A row of [companies], with [num_employees] and [logo_url] under their
    aliases. *)
Record company : Type := {
  co_handle : string;
  co_name : string;
  co_description : string;
  co_numEmployees : option Z;
  co_logoUrl : option string
}.

(** Modelled from the spec: the schema file of the repository is not among
    the sources.  The column names are those the statements of the models
    select and return; the types are those of the specification's data
    model: a numeric job id, an integer salary, a decimal equity (NUMERIC,
    as the comment in the Job model says), text for the rest. *)
Definition jobs_schema : schema :=
  [("id", TInt); ("title", TText); ("salary", TInt); ("equity", TNumeric);
   ("company_handle", TText)].

(** Modelled from the spec: as above, with an integer employee count and
    text for the rest. *)
Definition companies_schema : schema :=
  [("handle", TText); ("name", TText); ("description", TText);
   ("num_employees", TInt); ("logo_url", TText)].

Definition opt_val {A : Type} (f : A -> dbval) (o : option A) : dbval :=
  match o with
  | Some a => f a
  | None => DNull
  end.

Definition job_col (j : job) (c : string) : dbval :=
  if String.eqb c "id" then DInt (job_id j)
  else if String.eqb c "title" then DText (job_title j)
  else if String.eqb c "salary" then opt_val DInt (job_salary j)
  else if String.eqb c "equity" then opt_val DNumeric (job_equity j)
  else if String.eqb c "company_handle" then DText (job_companyHandle j)
  else DNull.

Definition company_col (c : company) (k : string) : dbval :=
  if String.eqb k "handle" then DText (co_handle c)
  else if String.eqb k "name" then DText (co_name c)
  else if String.eqb k "description" then DText (co_description c)
  else if String.eqb k "num_employees" then opt_val DInt (co_numEmployees c)
  else if String.eqb k "logo_url" then opt_val DText (co_logoUrl c)
  else DNull.

(** Storing a value in a column; [None] when the column cannot hold it (a
    NULL in a column that is never NULL). *)
Definition job_set (j : job) (c : string) (d : dbval) : option job :=
  if String.eqb c "id" then
    match d with
    | DInt z => Some {| job_id := z; job_title := job_title j; job_salary := job_salary j;
                        job_equity := job_equity j; job_companyHandle := job_companyHandle j |}
    | _ => None
    end
  else if String.eqb c "title" then
    match d with
    | DText s => Some {| job_id := job_id j; job_title := s; job_salary := job_salary j;
                         job_equity := job_equity j; job_companyHandle := job_companyHandle j |}
    | _ => None
    end
  else if String.eqb c "salary" then
    match d with
    | DInt z => Some {| job_id := job_id j; job_title := job_title j; job_salary := Some z;
                        job_equity := job_equity j; job_companyHandle := job_companyHandle j |}
    | DNull => Some {| job_id := job_id j; job_title := job_title j; job_salary := None;
                       job_equity := job_equity j; job_companyHandle := job_companyHandle j |}
    | _ => None
    end
  else if String.eqb c "equity" then
    match d with
    | DNumeric q => Some {| job_id := job_id j; job_title := job_title j;
                            job_salary := job_salary j; job_equity := Some q;
                            job_companyHandle := job_companyHandle j |}
    | DNull => Some {| job_id := job_id j; job_title := job_title j;
                       job_salary := job_salary j; job_equity := None;
                       job_companyHandle := job_companyHandle j |}
    | _ => None
    end
  else if String.eqb c "company_handle" then
    match d with
    | DText s => Some {| job_id := job_id j; job_title := job_title j;
                         job_salary := job_salary j; job_equity := job_equity j;
                         job_companyHandle := s |}
    | _ => None
    end
  else None.

Definition company_set (c : company) (k : string) (d : dbval) : option company :=
  if String.eqb k "handle" then
    match d with
    | DText s => Some {| co_handle := s; co_name := co_name c;
                         co_description := co_description c;
                         co_numEmployees := co_numEmployees c; co_logoUrl := co_logoUrl c |}
    | _ => None
    end
  else if String.eqb k "name" then
    match d with
    | DText s => Some {| co_handle := co_handle c; co_name := s;
                         co_description := co_description c;
                         co_numEmployees := co_numEmployees c; co_logoUrl := co_logoUrl c |}
    | _ => None
    end
  else if String.eqb k "description" then
    match d with
    | DText s => Some {| co_handle := co_handle c; co_name := co_name c;
                         co_description := s;
                         co_numEmployees := co_numEmployees c; co_logoUrl := co_logoUrl c |}
    | _ => None
    end
  else if String.eqb k "num_employees" then
    match d with
    | DInt z => Some {| co_handle := co_handle c; co_name := co_name c;
                        co_description := co_description c;
                        co_numEmployees := Some z; co_logoUrl := co_logoUrl c |}
    | DNull => Some {| co_handle := co_handle c; co_name := co_name c;
                       co_description := co_description c;
                       co_numEmployees := None; co_logoUrl := co_logoUrl c |}
    | _ => None
    end
  else if String.eqb k "logo_url" then
    match d with
    | DText s => Some {| co_handle := co_handle c; co_name := co_name c;
                         co_description := co_description c;
                         co_numEmployees := co_numEmployees c; co_logoUrl := Some s |}
    | DNull => Some {| co_handle := co_handle c; co_name := co_name c;
                       co_description := co_description c;
                       co_numEmployees := co_numEmployees c; co_logoUrl := None |}
    | _ => None
    end
  else None.

(** *** The connection *)

(** The calls of [db.query] in the two models: the statement's fixed text
    is the constructor, its interpolated fragments and its parameter array
    are the arguments. *)
Inductive statement : Type :=
| SelectJobs (whereClause : string) (params : list value)
    (* SELECT id, title, salary, equity, company_handle AS companyHandle
       FROM jobs [whereClause] ORDER BY title *)
| SelectCompanies (whereClause : string) (params : list value)
    (* SELECT handle, name, description, num_employees AS numEmployees,
       logo_url AS logoUrl FROM companies [whereClause] ORDER BY name *)
| SelectCompany (params : list value)
    (* SELECT handle, name, description, num_employees AS numEmployees,
       logo_url AS logoUrl FROM companies WHERE handle = $1 *)
| UpdateJobs (setCols idVarIdx : string) (params : list value)
    (* UPDATE jobs SET [setCols] WHERE id = [idVarIdx] RETURNING id, title,
       salary, equity, company_handle AS companyHandle *)
| UpdateCompanies (setCols handleVarIdx : string) (params : list value).
    (* UPDATE companies SET [setCols] WHERE handle = [handleVarIdx]
       RETURNING handle, name, description, num_employees AS numEmployees,
       logo_url AS logoUrl *)

(** The server's state: the two tables, the collation ORDER BY sorts text
    with, the constraints of the schema (CHECK, UNIQUE, foreign keys: the
    schema file is not part of the models, so they are a parameter of the
    state; they are checked when a statement has rewritten a row), and the
    statements received so far. *)
Record db : Type := {
  companies : list company;
  jobs : list job;
  collate : string -> string -> bool;
  constraints : list company -> list job -> bool;
  log : list statement
}.

Definition logged (q : statement) (s : db) : db :=
  {| companies := companies s; jobs := jobs s; collate := collate s;
     constraints := constraints s; log := log s ++ [q] |}.

Definition with_tables (cs : list company) (js : list job) (s : db) : db :=
  {| companies := cs; jobs := js; collate := collate s;
     constraints := constraints s; log := log s |}.

(** Code that talks to the database and may throw. *)
Definition M (A : Type) : Type := db -> result A * db.

Definition ret {A : Type} (a : A) : M A := fun s => (Ok a, s).

Definition throw {A : Type} (e : error) : M A := fun s => (Err e, s).

Definition lift {A : Type} (r : result A) : M A := fun s => (r, s).

Definition bind {A B : Type} (m : M A) (k : A -> M B) : M B :=
  fun s =>
    match m s with
    | (Ok a, s') => k a s'
    | (Err e, s') => (Err e, s')
    end.

Notation "x <- m ;; k" := (bind m (fun x => k))
  (at level 61, m at next level, right associativity).

Definition query_select_jobs (whereClause : string) (params : list value) : M (list job) :=
  fun s =>
    (match select_where jobs_schema job_col (collate s) whereClause params (jobs s) with
     | Ok rows => Ok (sort_by (fun a b => collate s (job_title a) (job_title b)) rows)
     | Err e => Err e
     end,
     logged (SelectJobs whereClause params) s).

Definition query_select_companies (whereClause : string) (params : list value)
  : M (list company) :=
  fun s =>
    (match select_where companies_schema company_col (collate s) whereClause params
                        (companies s) with
     | Ok rows => Ok (sort_by (fun a b => collate s (co_name a) (co_name b)) rows)
     | Err e => Err e
     end,
     logged (SelectCompanies whereClause params) s).

Definition query_select_company (params : list value) : M (list company) :=
  fun s =>
    (select_where companies_schema company_col (collate s) "WHERE handle = $1" params
                  (companies s),
     logged (SelectCompany params) s).

Definition query_update_jobs (setCols idVarIdx : string) (params : list value)
  : M (list job) :=
  fun s =>
    let s' := logged (UpdateJobs setCols idVarIdx params) s in
    match update_where jobs_schema job_col job_set (collate s) "id"
                       setCols idVarIdx params (jobs s) with
    | Err e => (Err e, s')
    | Ok ([], _) => (Ok [], s')
    | Ok (returned, table) =>
        if constraints s (companies s) table
        then (Ok returned, with_tables (companies s) table s')
        else (Err (DatabaseError integrity_constraint_violation), s')
    end.

Definition query_update_companies (setCols handleVarIdx : string) (params : list value)
  : M (list company) :=
  fun s =>
    let s' := logged (UpdateCompanies setCols handleVarIdx params) s in
    match update_where companies_schema company_col company_set (collate s) "handle"
                       setCols handleVarIdx params (companies s) with
    | Err e => (Err e, s')
    | Ok ([], _) => (Ok [], s')
    | Ok (returned, table) =>
        if constraints s table (jobs s)
        then (Ok returned, with_tables table (jobs s) s')
        else (Err (DatabaseError integrity_constraint_violation), s')
    end.

(** *** The statements of [create], [Job.get] and [remove]

    The log keeps the statements of [findAll], [Company.get] and [update];
    the statements below leave it as it is. *)

(** The rows of a table a WHERE fragment selects, and the rows it leaves. *)
Definition delete_where {R : Type} (sch : schema) (col : R -> string -> dbval)
    (le : string -> string -> bool) (whereClause : string) (params : list value)
    (rows : list R) : result (list R * list R) :=
  match parse_where whereClause with
  | None => Err (DatabaseError syntax_error)
  | Some preds =>
      if placeholders_ok (placeholders_of preds) (length params) then
        match mapM (bind_pred sch params) preds with
        | Err e => Err e
        | Ok bound =>
            let selected r :=
              forallb (fun b => match b with
                                | (c, op, d) => eval_op le op (col r c) d
                                end) bound in
            Ok (filter selected rows, filter (fun r => negb (selected r)) rows)
        end
      else Err (DatabaseError protocol_violation)
  end.

(** The parameters of an INSERT, read at the types of its columns. *)
Definition bind_values (tys : list coltype) (params : list value) : result (list dbval) :=
  if Nat.eqb (length tys) (length params)
  then mapM (fun tv => coerce (fst tv) (snd tv)) (combine tys params)
  else Err (DatabaseError protocol_violation).

Definition int_or_null (d : dbval) : option (option Z) :=
  match d with
  | DInt z => Some (Some z)
  | DNull => Some None
  | _ => None
  end.

Definition text_or_null (d : dbval) : option (option string) :=
  match d with
  | DText t => Some (Some t)
  | DNull => Some None
  | _ => None
  end.

Definition numeric_or_null (d : dbval) : option (option numeric) :=
  match d with
  | DNumeric q => Some (Some q)
  | DNull => Some None
  | _ => None
  end.

(** The row of [companies] made of the five values of the INSERT of
    [Company.create]; [None] when a column that is never NULL gets one. *)
Definition company_of_values (ds : list dbval) : option company :=
  match ds with
  | [DText h; DText n; DText d; ne; l] =>
      match int_or_null ne, text_or_null l with
      | Some ne', Some l' =>
          Some {| co_handle := h; co_name := n; co_description := d;
                  co_numEmployees := ne'; co_logoUrl := l' |}
      | _, _ => None
      end
  | _ => None
  end.

(** The row of [jobs] made of the id its sequence yields and the four values
    of the INSERT of [Job.create]. *)
Definition job_of_values (serial : Z) (ds : list dbval) : option job :=
  match ds with
  | [DText t; sal; eq; DText ch] =>
      match int_or_null sal, numeric_or_null eq with
      | Some sal', Some eq' =>
          Some {| job_id := serial; job_title := t; job_salary := sal';
                  job_equity := eq'; job_companyHandle := ch |}
      | _, _ => None
      end
  | _ => None
  end.

Definition insert_company (params : list value) : result company :=
  match bind_values [TText; TText; TText; TInt; TText] params with
  | Err e => Err e
  | Ok ds =>
      match company_of_values ds with
      | Some c => Ok c
      | None => Err (DatabaseError not_null_violation)
      end
  end.

Definition insert_job (serial : Z) (params : list value) : result job :=
  match bind_values [TText; TInt; TNumeric; TText] params with
  | Err e => Err e
  | Ok ds =>
      match job_of_values serial ds with
      | Some j => Ok j
      | None => Err (DatabaseError not_null_violation)
      end
  end.

(** [SELECT handle FROM companies WHERE handle = $1] *)
Definition query_select_handle (params : list value) : M (list string) :=
  fun s =>
    (match select_where companies_schema company_col (collate s) "WHERE handle = $1"
                        params (companies s) with
     | Ok rows => Ok (map co_handle rows)
     | Err e => Err e
     end,
     s).

(** [INSERT INTO companies (handle, name, description, num_employees,
    logo_url) VALUES ($1, $2, $3, $4, $5) RETURNING ...]: the new row goes
    after the others. *)
Definition query_insert_company (params : list value) : M (list company) :=
  fun s =>
    match insert_company params with
    | Err e => (Err e, s)
    | Ok c =>
        if constraints s (companies s ++ [c]) (jobs s)
        then (Ok [c], with_tables (companies s ++ [c]) (jobs s) s)
        else (Err (DatabaseError integrity_constraint_violation), s)
    end.

(** [DELETE FROM companies WHERE handle = $1 RETURNING handle].  What the
    schema does to the jobs of a deleted company (the action of its foreign
    key) is not modelled: the statement rewrites [companies] only, and the
    constraints of the state decide whether that stands. *)
Definition query_delete_companies (params : list value) : M (list company) :=
  fun s =>
    match delete_where companies_schema company_col (collate s) "WHERE handle = $1"
                       params (companies s) with
    | Err e => (Err e, s)
    | Ok ([], _) => (Ok [], s)
    | Ok (deleted, remaining) =>
        if constraints s remaining (jobs s)
        then (Ok deleted, with_tables remaining (jobs s) s)
        else (Err (DatabaseError integrity_constraint_violation), s)
    end.

(** [INSERT INTO jobs (title, salary, equity, company_handle) VALUES ($1,
    $2, $3, $4) RETURNING ...].  The id comes from the sequence of the
    table, which is no part of the state: [serial] is the value it yields
    for this statement. *)
Definition query_insert_job (serial : Z) (params : list value) : M (list job) :=
  fun s =>
    match insert_job serial params with
    | Err e => (Err e, s)
    | Ok j =>
        if constraints s (companies s) (jobs s ++ [j])
        then (Ok [j], with_tables (companies s) (jobs s ++ [j]) s)
        else (Err (DatabaseError integrity_constraint_violation), s)
    end.

(** [SELECT id, title, salary, equity, company_handle AS companyHandle FROM
    jobs WHERE id = $1] *)
Definition query_select_job (params : list value) : M (list job) :=
  fun s =>
    (select_where jobs_schema job_col (collate s) "WHERE id = $1" params (jobs s), s).

(** [DELETE FROM jobs WHERE id = $1 RETURNING id] *)
Definition query_delete_jobs (params : list value) : M (list job) :=
  fun s =>
    match delete_where jobs_schema job_col (collate s) "WHERE id = $1"
                       params (jobs s) with
    | Err e => (Err e, s)
    | Ok ([], _) => (Ok [], s)
    | Ok (deleted, remaining) =>
        if constraints s (companies s) remaining
        then (Ok deleted, with_tables (companies s) remaining s)
        else (Err (DatabaseError integrity_constraint_violation), s)
    end.

(** ** The models *)

Record where_statement : Type := {
  whereClause : string;
  whereValues : list value
}.

(** [arr.push(x)] *)
Definition push {A : Type} (arr : list A) (x : A) : list A := arr ++ [x].

(** [rows[0]]: [None] is [undefined]. *)
Definition first_row {A : Type} (rows : list A) : option A := nth_error rows 0.

(** A promise, with what it settles to. *)
Inductive promise (A : Type) : Type :=
| Promise (settled : result A).

Arguments Promise {A} settled.

(** An async function called without [await]: it runs up to its first
    [await] (for [findAll], the call of [db.query], so the statement is
    sent), and the caller gets a promise and goes on, whatever the promise
    settles to.  The calls made this way only read the tables, so the
    promise is settled on the spot. *)
Definition not_awaited {A : Type} (m : M A) : M (promise A) :=
  fun s => (Ok (Promise (fst (m s))), snd (m s)).

(** *** models/job.js *)

Module Job.

(** The id of the new job is the one the sequence of the table yields,
    [serial]. *)
Definition create (serial : Z) (data : object) : M (option job) :=
  let title := prop data "title" in
  let salary := prop data "salary" in
  let equity := prop data "equity" in
  let companyHandle := prop data "companyHandle" in
  result <- query_insert_job serial [title; salary; equity; companyHandle] ;;
  let job := first_row result in
  ret job.

Definition _sqlWhereBuilder (minSalary hasEquity title companyHandle : value)
  : where_statement :=
  let whereClause : list string := [] in
  let whereValues : list value := [] in
  let '(whereClause, whereValues) :=
    if defined minSalary then
      let whereValues := push whereValues minSalary in
      (push whereClause ("salary >= $" ++ dec (length whereValues)), whereValues)
    else (whereClause, whereValues) in
  let whereClause :=
    if is_true hasEquity then push whereClause "equity > 0" else whereClause in
  let '(whereClause, whereValues) :=
    if defined title then
      let whereValues := push whereValues (VStr ("%" ++ to_string title ++ "%")) in
      (push whereClause ("title ILIKE $" ++ dec (length whereValues)), whereValues)
    else (whereClause, whereValues) in
  let '(whereClause, whereValues) :=
    if defined companyHandle then
      let whereValues := push whereValues (VStr ("%" ++ to_string companyHandle ++ "%")) in
      (push whereClause ("company_handle ILIKE $" ++ dec (length whereValues)), whereValues)
    else (whereClause, whereValues) in
  {| whereClause := "WHERE " ++ join " AND " whereClause;
     whereValues := whereValues |}.

Definition findAll (filterBy : jsarg) : M (list job) :=
  let '(whereClause, whereValues) :=
    match filterBy with
    | Obj filterBy => (* filterBy instanceof Object *)
        if (0 <? length (Object_keys filterBy))%nat then
          let whereStatement :=
            _sqlWhereBuilder (prop filterBy "minSalary") (prop filterBy "hasEquity")
                             (prop filterBy "title") (prop filterBy "companyHandle") in
          (whereClause whereStatement, whereValues whereStatement)
        else (EmptyString, [])
    | Prim _ => (EmptyString, [])
    end in
  jobsResults <- query_select_jobs whereClause whereValues ;;
  ret jobsResults.

Definition get (id : value) : M job :=
  jobRes <- query_select_job [id] ;;
  match first_row jobRes with
  | None => throw (NotFoundError ("There is no job with id: " ++ to_string id))
  | Some job => ret job
  end.

Definition update (id : value) (data : object) : M job :=
  fragment <- lift (sqlForPartialUpdate data []) ;;
  let idVarIdx := "$" ++ dec (length (values fragment) + 1) in
  result <- query_update_jobs (setCols fragment) idVarIdx (values fragment ++ [id])%list ;;
  match first_row result with
  | None => throw (NotFoundError ("No job: " ++ to_string id))
  | Some job => ret job
  end.

Definition remove (id : value) : M unit :=
  result <- query_delete_jobs [id] ;;
  match first_row result with
  | None => throw (NotFoundError ("No job: " ++ to_string id))
  | Some job => ret tt
  end.

End Job.

(** *** models/company.js *)

(** The object [Company.get] hands back: the row, and what was stored under
    its [jobs] property. *)
Record company_with_jobs : Type := {
  company_row : company;
  company_jobs : promise (list job)
}.

(** [company["jobs"] = jobs]: a TypeError when [company] is [undefined]. *)
Definition set_jobs (company : option company) (jobs : promise (list job))
  : result (option company_with_jobs) :=
  match company with
  | None => Err TypeError
  | Some c => Ok (Some {| company_row := c; company_jobs := jobs |})
  end.

Module Company.

Definition create (data : object) : M (option company) :=
  let handle := prop data "handle" in
  let name := prop data "name" in
  let description := prop data "description" in
  let numEmployees := prop data "numEmployees" in
  let logoUrl := prop data "logoUrl" in
  duplicateCheck <- query_select_handle [handle] ;;
  match first_row duplicateCheck with
  | Some _ => throw (BadRequestError ("Duplicate company: " ++ to_string handle))
  | None =>
      result <- query_insert_company [handle; name; description; numEmployees; logoUrl] ;;
      let company := first_row result in
      ret company
  end.

Definition _sqlWhereBuilder (name min max : value) : where_statement :=
  let whereClause : list string := [] in
  let whereValues : list value := [] in
  let '(whereClause, whereValues) :=
    if defined name then
      let whereValues := push whereValues (VStr ("%" ++ to_string name ++ "%")) in
      (push whereClause ("name ILIKE $" ++ dec (length whereValues)), whereValues)
    else (whereClause, whereValues) in
  let '(whereClause, whereValues) :=
    if defined min then
      let whereValues := push whereValues min in
      (push whereClause ("num_employees >= $" ++ dec (length whereValues)), whereValues)
    else (whereClause, whereValues) in
  let '(whereClause, whereValues) :=
    if defined max then
      let whereValues := push whereValues max in
      (push whereClause ("num_employees <= $" ++ dec (length whereValues)), whereValues)
    else (whereClause, whereValues) in
  {| whereClause := "WHERE " ++ join " AND " whereClause;
     whereValues := whereValues |}.

Definition findAll (filterBy : jsarg) : M (list company) :=
  let '(whereClause, whereValues) :=
    match filterBy with
    | Obj filterBy => (* filterBy instanceof Object *)
        if (0 <? length (Object_keys filterBy))%nat then
          let minEmp := prop filterBy "minEmp" in
          let maxEmp := prop filterBy "maxEmp" in
          let name := prop filterBy "name" in
          let whereStatement := _sqlWhereBuilder name minEmp maxEmp in
          (whereClause whereStatement, whereValues whereStatement)
        else (EmptyString, [])
    | Prim _ => (EmptyString, [])
    end in
  companiesRes <- query_select_companies whereClause whereValues ;;
  ret companiesRes.

Definition get (handle : value) : M company_with_jobs :=
  companyRes <- query_select_company [handle] ;;
  let company := first_row companyRes in
  jobs <- not_awaited (Job.findAll (Obj [("companyHandle", handle)])) ;;
  company <- lift (set_jobs company jobs) ;;
  match company with
  | None => throw (NotFoundError ("No company: " ++ to_string handle))
  | Some company => ret company
  end.

Definition update (handle : value) (data : object) : M company :=
  fragment <- lift (sqlForPartialUpdate
                      data
                      [("numEmployees", VStr "num_employees");
                       ("logoUrl", VStr "logo_url")]) ;;
  let handleVarIdx := "$" ++ dec (length (values fragment) + 1) in
  result <- query_update_companies (setCols fragment) handleVarIdx
                                   (values fragment ++ [handle])%list ;;
  match first_row result with
  | None => throw (NotFoundError ("No company: " ++ to_string handle))
  | Some company => ret company
  end.

Definition remove (handle : value) : M unit :=
  result <- query_delete_companies [handle] ;;
  match first_row result with
  | None => throw (NotFoundError ("No company: " ++ to_string handle))
  | Some company => ret tt
  end.

End Company.

(** *** routes/jobs.js *)

(** The handler of [GET /jobs], as far as the model is concerned: the four
    filters are read off the query string (so each one present is a string)
    and handed to [Job.findAll], unless all four are missing. *)
Definition GET_jobs (query : object) : M (list job) :=
  let minSalary := prop query "minSalary" in
  let hasEquity := prop query "hasEquity" in
  let title := prop query "title" in
  let companyHandle := prop query "companyHandle" in
  if negb (defined minSalary) && negb (defined hasEquity)
     && negb (defined title) && negb (defined companyHandle)
  then Job.findAll (Prim VUndefined)
  else Job.findAll (Obj [("minSalary", minSalary); ("hasEquity", hasEquity);
                         ("title", title); ("companyHandle", companyHandle)]).

(** ** Test data *)

(** The three jobs of the specification's filter example. *)
Definition Job1 : job :=
  {| job_id := 1; job_title := "Job1"; job_salary := Some 100%Z;
     job_equity := Some {| unscaled := 1; scale := 1 |}; job_companyHandle := "c1" |}.
Definition Job2 : job :=
  {| job_id := 2; job_title := "Job2"; job_salary := Some 200%Z;
     job_equity := Some {| unscaled := 0; scale := 0 |}; job_companyHandle := "c2" |}.
Definition Job3 : job :=
  {| job_id := 3; job_title := "Job3"; job_salary := Some 300%Z;
     job_equity := Some {| unscaled := 3; scale := 1 |}; job_companyHandle := "c1" |}.

Definition C1co : company :=
  {| co_handle := "c1"; co_name := "C1"; co_description := "Desc1";
     co_numEmployees := Some 1%Z; co_logoUrl := Some "http://c1.img" |}.
Definition C2co : company :=
  {| co_handle := "c2"; co_name := "C2"; co_description := "Desc2";
     co_numEmployees := Some 2%Z; co_logoUrl := Some "http://c2.img" |}.

(** A database holding them, sorting text by character codes, with no
    constraint beyond the column types. *)
Definition testDb : db :=
  {| companies := [C2co; C1co];
     jobs := [Job3; Job1; Job2];
     collate := String.leb;
     constraints := fun _ _ => true;
     log := [] |}.

(** A database where one handle is part of another. *)
Definition C11co : company :=
  {| co_handle := "c11"; co_name := "C11"; co_description := "Desc11";
     co_numEmployees := None; co_logoUrl := None |}.
Definition Job4 : job :=
  {| job_id := 4; job_title := "Job4"; job_salary := None;
     job_equity := None; job_companyHandle := "c11" |}.
Definition overlapDb : db :=
  {| companies := [C1co; C11co];
     jobs := [Job1; Job4];
     collate := String.leb;
     constraints := fun _ _ => true;
     log := [] |}.

(** The same three jobs, stored in title order. *)
Definition threeJobs : db :=
  {| companies := [C1co; C2co]; jobs := [Job1; Job2; Job3]; collate := String.leb;
     constraints := fun _ _ => true; log := [] |}.

(** ** The specification's reading of the predicate builder

    The builder as the specification words it: walk a fixed list of
    criteria with a running parameter position.  The models push onto two
    arrays instead and read the position off the length of the value array;
    the theorems below relate the two. *)

Inductive criterion : Type :=
| Bound (template : string) (v : value)
    (* active, bound to the next position: the clause is the template
       followed by the placeholder *)
| Flag (clause : string)
    (* active, nothing bound *)
| Inactive.

Fixpoint walk (criteria : list criterion) (position : nat) : list string * list value :=
  match criteria with
  | [] => ([], [])
  | Inactive :: rest => walk rest position
  | Flag clause :: rest =>
      let (clauses, vals) := walk rest position in (clause :: clauses, vals)
  | Bound template v :: rest =>
      let (clauses, vals) := walk rest (S position) in
      ((template ++ "$" ++ dec position) :: clauses, v :: vals)
  end.

Definition buildWhere (criteria : list criterion) : where_statement :=
  let (clauses, vals) := walk criteria 1 in
  {| whereClause := "WHERE " ++ join " AND " clauses; whereValues := vals |}.

(** A criterion that binds its value when it is provided. *)
Definition provided (template : string) (v : value) : criterion :=
  if defined v then Bound template v else Inactive.

(** A substring criterion: binds the value between two [%]. *)
Definition substring (template : string) (v : value) : criterion :=
  if defined v then Bound template (VStr ("%" ++ to_string v ++ "%")) else Inactive.

Definition job_criteria (minSalary hasEquity title companyHandle : value) : list criterion :=
  [ provided "salary >= " minSalary;
    (if is_true hasEquity then Flag "equity > 0" else Inactive);
    substring "title ILIKE " title;
    substring "company_handle ILIKE " companyHandle ].

Definition company_criteria (name min max : value) : list criterion :=
  [ substring "name ILIKE " name;
    provided "num_employees >= " min;
    provided "num_employees <= " max ].

(** The values a list of criteria binds, in order. *)
Definition bound_values (criteria : list criterion) : list value :=
  flat_map (fun c => match c with Bound _ v => [v] | _ => [] end) criteria.

(** ** Well-formed updates

    When the server accepts the statement an [update] method sends: every
    physical name is a column of the table, no column is assigned twice, and
    every value reads at the type of its column. *)

Definition field_ok (sch : schema) (jsToSql : object) (field : string * value) : bool :=
  match lookup_col sch (physical jsToSql (fst field)) with
  | Some ty => match coerce ty (snd field) with Ok _ => true | Err _ => false end
  | None => false
  end.

Definition well_typed (sch : schema) (jsToSql data : object) : bool :=
  negb (has_dup (map (physical jsToSql) (Object_keys data)))
  && forallb (field_ok sch jsToSql) data.

(** The key reads at the type of the key column. *)
Definition key_ok (ty : coltype) (key : value) : bool :=
  match coerce ty key with Ok _ => true | Err _ => false end.

(** [occurs c s]: the character [c] occurs in [s]. *)
Fixpoint occurs (c : ascii) (s : string) : bool :=
  match s with
  | EmptyString => false
  | String a r => Ascii.eqb a c || occurs c r
  end.

(** The pieces between double quotes of a SET fragment that assigns
    [names] to the positions from [i + 1] on. *)
Fixpoint pieces (i : nat) (names : list string) : list string :=
  match names with
  | [] => []
  | p :: rest =>
      match rest with
      | [] => [p; "=$" ++ dec (i + 1)]
      | _ :: _ => p :: ("=$" ++ dec (i + 1) ++ ", ") :: pieces (S i) rest
      end
  end.

(** One assignment of the fragment. *)
Definition clause (p : string) (idx : nat) : string :=
  dquote ++ p ++ dquote ++ "=$" ++ dec (idx + 1).

(** The column names of a schema can stand between double quotes. *)
Definition plain_names (sch : schema) : bool :=
  forallb (fun c => negb (occurs (ascii_of_nat 34) c) && negb (String.eqb c EmptyString))
          (map fst sch).

(** What an [update] method makes of the rows its statement returned. *)
Definition updated {A : Type} (missing : string) (q : result (list A) * db) : result A * db :=
  match fst q with
  | Err e => (Err e, snd q)
  | Ok rows =>
      match first_row rows with
      | None => (Err (NotFoundError missing), snd q)
      | Some row => (Ok row, snd q)
      end
  end.

(** ** The rows a filter selects

    What the criteria mean for a row, read off the predicates' templates:
    a comparison with the bound value at the column's type, a
    case-insensitive match of the bound pattern. *)



(** Evaluate the server's reading of a fragment whose text is known. *)
Ltac read_fragment sch :=
  match goal with
  | |- context [parse_where ?w] =>
      let r := eval vm_compute in (parse_where w) in
      change (parse_where w) with r
  end;
  cbv beta iota;
  match goal with
  | |- context [placeholders_ok ?a ?b] =>
      let r := eval vm_compute in (placeholders_ok a b) in
      change (placeholders_ok a b) with r
  end;
  cbv beta iota;
  unfold mapM, bind_pred; cbn [p_col p_op p_arg];
  repeat match goal with
         | |- context [lookup_col sch ?c] =>
             let r := eval vm_compute in (lookup_col sch c) in
             change (lookup_col sch c) with r
         end;
  cbv beta iota;
  unfold bind_param, push; cbn [Nat.sub nth_error List.app].

(** ** Rows by key *)

(** The job has the id the value reads as. *)
Definition job_has_id (id : value) (j : job) : bool :=
  match coerce TInt id with
  | Ok (DInt z) => Z.eqb (job_id j) z
  | _ => false
  end.

(** The company has the handle the value is sent as. *)
Definition company_has_handle (handle : value) (c : company) : bool :=
  match pg_text handle with
  | Some h => String.eqb (co_handle c) h
  | None => false
  end.

(** The assignments an [update] statement makes: for each field of [data],
    the physical name and the value read at the type of that column. *)
Definition assignments (sch : schema) (jsToSql data : object) : list (string * dbval) :=
  flat_map (fun field =>
              match lookup_col sch (physical jsToSql (fst field)) with
              | Some ty =>
                  match coerce ty (snd field) with
                  | Ok d => [(physical jsToSql (fst field), d)]
                  | Err _ => []
                  end
              | None => []
              end) data.

(** One column of the five: the assignment went to [c], the read is of [c']. *)
Ltac other_column c c' Hset Hc :=
  match type of Hset with
  | context [String.eqb c ?name] =>
      destruct (String.eqb_spec c name) as [->|_];
      [apply String.eqb_neq in Hc;
       match type of Hset with
       | context [match ?d with DNull => _ | _ => _ end] =>
           destruct d; inversion Hset; cbn;
           repeat match goal with
                  | |- context [String.eqb c' ?n] =>
                      destruct (String.eqb c' n) eqn:?; try congruence
                  end; reflexivity
       end|]
  end.

(** ** Data for the other methods *)

(** A company to create. *)
Definition newCompany : object :=
  [("handle", VStr "new"); ("name", VStr "New"); ("description", VStr "New Description");
   ("numEmployees", VNum 1); ("logoUrl", VStr "http://new.img")].

(** The job the model's tests create. *)
Definition newJob : object :=
  [("title", VStr "New"); ("equity", VStr "0.5"); ("salary", VNum 50);
   ("companyHandle", VStr "c1")].

(** The update of the model's tests, and the row it makes of [Job1]. *)
Definition updateData : object :=
  [("title", VStr "JobUpdate"); ("salary", VNum 10000); ("equity", VStr "0.3")].

Definition Job1_updated : job :=
  {| job_id := 1; job_title := "JobUpdate"; job_salary := Some 10000%Z;
     job_equity := Some {| unscaled := 3; scale := 1 |}; job_companyHandle := "c1" |}.



(** ** Lists and text *)



Lemma mapi_from_keys (f : string -> nat -> string) (o o' : object) :
  Object_keys o = Object_keys o' ->
  forall i, mapi_from f i (Object_keys o) = mapi_from f i (Object_keys o').
Proof.
  intros ->. reflexivity.
Qed.

Lemma defined_iff (v : value) : defined v = true <-> v <> VUndefined.
Proof.
  destruct v; simpl; split; intros H; try reflexivity; try discriminate; congruence.
Qed.

Lemma is_true_iff (v : value) : is_true v = true <-> v = VBool true.
Proof.
  destruct v as [| |[|]| |]; simpl; split; intros H; try reflexivity; try discriminate.
Qed.


(** ** The partial-update builder *)

(** The three cases of the helper's own test file. *)
Example sqlForPartialUpdate_blank_jsToSql :
  sqlForPartialUpdate [("testCol", VStr "testVal")] []
  = Ok {| setCols := dquote ++ "testCol" ++ dquote ++ "=$1";
          values := [VStr "testVal"] |}.
Proof. reflexivity. Qed.

Example sqlForPartialUpdate_one_renamed :
  sqlForPartialUpdate [("testCol", VStr "testVal")] [("testCol", VStr "a")]
  = Ok {| setCols := dquote ++ "a" ++ dquote ++ "=$1";
          values := [VStr "testVal"] |}.
Proof. reflexivity. Qed.

Example sqlForPartialUpdate_two_columns :
  sqlForPartialUpdate [("col1", VStr "test1"); ("col2", VStr "test2")]
                      [("col2", VStr "bbbbb")]
  = Ok {| setCols := dquote ++ "col1" ++ dquote ++ "=$1, "
                     ++ dquote ++ "bbbbb" ++ dquote ++ "=$2";
          values := [VStr "test1"; VStr "test2"] |}.
Proof. reflexivity. Qed.

Lemma sqlForPartialUpdate_nonempty (F M : object) :
  F <> [] ->
  sqlForPartialUpdate F M
  = Ok {| setCols := join ", " (cols (Object_keys F) M); values := Object_values F |}.
Proof.
  intros HF. unfold sqlForPartialUpdate.
  destruct F as [|p F]; [congruence | reflexivity].
Qed.




(** C3: with no field at all, the builder throws BadRequestError
    [No data] whatever the field map, and both [update] methods
    fail with it before any statement is sent: the database, its log
    included, is as it was. *)
Theorem sqlForPartialUpdate_no_data (M : object) (id handle : value) (s : db) :
  sqlForPartialUpdate [] M = Err (BadRequestError "No data")
  /\ Job.update id [] s = (Err (BadRequestError "No data"), s)
  /\ Company.update handle [] s = (Err (BadRequestError "No data"), s).
Proof.
  repeat split.
Qed.

(** ** The predicate builders *)

(** The models' builders compute what the specification's walk computes. *)
Lemma Job_sqlWhereBuilder_walk (minSalary hasEquity title companyHandle : value) :
  Job._sqlWhereBuilder minSalary hasEquity title companyHandle
  = buildWhere (job_criteria minSalary hasEquity title companyHandle).
Proof.
  unfold Job._sqlWhereBuilder, buildWhere, job_criteria, provided, substring.
  destruct (defined minSalary), (is_true hasEquity), (defined title),
    (defined companyHandle); reflexivity.
Qed.

Lemma Company_sqlWhereBuilder_walk (name min max : value) :
  Company._sqlWhereBuilder name min max = buildWhere (company_criteria name min max).
Proof.
  unfold Company._sqlWhereBuilder, buildWhere, company_criteria, provided, substring.
  destruct (defined name), (defined min), (defined max); reflexivity.
Qed.

Lemma walk_values (criteria : list criterion) :
  forall position, snd (walk criteria position) = bound_values criteria.
Proof.
  induction criteria as [|c rest IH]; intros position; simpl.
  - reflexivity.
  - destruct c as [template v|clause|]; simpl.
    + specialize (IH (S position)). destruct (walk rest (S position)). simpl in *.
      now rewrite IH.
    + specialize (IH position). destruct (walk rest position). simpl in *. exact IH.
    + apply IH.
Qed.

(** C4: the Job builder is the specification's walk over minSalary,
    hasEquity, title, companyHandle in this order, starting at position 1:
    a provided minSalary gives [salary >= $n] and binds the value, a
    provided title gives [title ILIKE $n] and binds the title between
    two [%], a provided companyHandle gives [company_handle ILIKE $n] and
    binds it the same way, and hasEquity gives the clause [equity > 0] and
    binds nothing, exactly when it is the boolean true; the clauses are
    joined with AND after WHERE. *)
Theorem Job_sqlWhereBuilder_criteria (minSalary hasEquity title companyHandle : value) :
  let criteria :=
    [ (if defined minSalary then Bound "salary >= " minSalary else Inactive);
      (if is_true hasEquity then Flag "equity > 0" else Inactive);
      (if defined title
       then Bound "title ILIKE " (VStr ("%" ++ to_string title ++ "%")) else Inactive);
      (if defined companyHandle
       then Bound "company_handle ILIKE " (VStr ("%" ++ to_string companyHandle ++ "%"))
       else Inactive) ] in
  Job._sqlWhereBuilder minSalary hasEquity title companyHandle
  = {| whereClause := "WHERE " ++ join " AND " (fst (walk criteria 1));
       whereValues := bound_values criteria |}
  /\ (is_true hasEquity = true <-> hasEquity = VBool true)
  /\ (forall v : value, defined v = true <-> v <> VUndefined).
Proof.
  intros criteria. split; [|split].
  - rewrite Job_sqlWhereBuilder_walk. unfold buildWhere.
    change (job_criteria minSalary hasEquity title companyHandle) with criteria.
    rewrite <- (walk_values criteria 1).
    destruct (walk criteria 1). reflexivity.
  - apply is_true_iff.
  - apply defined_iff.
Qed.

(** The fragments of the Job builder for each way of providing the
    criteria, spelled out. *)
Example Job_sqlWhereBuilder_all :
  Job._sqlWhereBuilder (VNum 150) (VBool true) (VStr "job") (VStr "c1")
  = {| whereClause :=
         "WHERE salary >= $1 AND equity > 0 AND title ILIKE $2 AND company_handle ILIKE $3";
       whereValues := [VNum 150; VStr "%job%"; VStr "%c1%"] |}.
Proof. reflexivity. Qed.

Example Job_sqlWhereBuilder_equity_takes_no_position :
  Job._sqlWhereBuilder VUndefined (VBool true) (VStr "job") VUndefined
  = {| whereClause := "WHERE equity > 0 AND title ILIKE $1";
       whereValues := [VStr "%job%"] |}
  /\ Job._sqlWhereBuilder VUndefined (VBool false) (VStr "job") VUndefined
     = {| whereClause := "WHERE title ILIKE $1"; whereValues := [VStr "%job%"] |}
  /\ Job._sqlWhereBuilder VUndefined (VStr "true") (VStr "job") VUndefined
     = {| whereClause := "WHERE title ILIKE $1"; whereValues := [VStr "%job%"] |}.
Proof. repeat split. Qed.

(** C2: the text of a fragment does not depend on the values.  Two runs of
    a builder on inputs with the same keys (for the where builders: the
    same criteria provided, hasEquity true in both or in neither) give the
    same text, and the values are found in the value sequence only: the
    values of the field map in key order, the provided criteria in
    criterion order, the substring ones between two [%]. *)
Theorem fragment_text_independent_of_values
    (F F' M : object)
    (name min max name' min' max' : value)
    (minSalary hasEquity title companyHandle : value)
    (minSalary' hasEquity' title' companyHandle' : value) :
  Object_keys F = Object_keys F' ->
  defined name = defined name' ->
  defined min = defined min' ->
  defined max = defined max' ->
  defined minSalary = defined minSalary' ->
  is_true hasEquity = is_true hasEquity' ->
  defined title = defined title' ->
  defined companyHandle = defined companyHandle' ->
  match sqlForPartialUpdate F M, sqlForPartialUpdate F' M with
  | Ok f, Ok f' =>
      setCols f = setCols f' /\ values f = Object_values F /\ values f' = Object_values F'
  | Err e, Err e' => e = e'
  | _, _ => False
  end
  /\ whereClause (Company._sqlWhereBuilder name min max)
     = whereClause (Company._sqlWhereBuilder name' min' max')
  /\ whereValues (Company._sqlWhereBuilder name min max)
     = bound_values (company_criteria name min max)
  /\ whereClause (Job._sqlWhereBuilder minSalary hasEquity title companyHandle)
     = whereClause (Job._sqlWhereBuilder minSalary' hasEquity' title' companyHandle')
  /\ whereValues (Job._sqlWhereBuilder minSalary hasEquity title companyHandle)
     = bound_values (job_criteria minSalary hasEquity title companyHandle).
Proof.
  intros HF Hn Hmin Hmax Hs He Ht Hc.
  split; [|split; [|split; [|split]]].
  - unfold sqlForPartialUpdate. rewrite <- HF.
    destruct (length (Object_keys F) =? 0)%nat; simpl; auto.
  - unfold Company._sqlWhereBuilder. rewrite <- Hn, <- Hmin, <- Hmax.
    destruct (defined name), (defined min), (defined max); reflexivity.
  - rewrite Company_sqlWhereBuilder_walk. unfold buildWhere.
    rewrite <- (walk_values _ 1). now destruct (walk _ 1).
  - unfold Job._sqlWhereBuilder. rewrite <- Hs, <- He, <- Ht, <- Hc.
    destruct (defined minSalary), (is_true hasEquity), (defined title),
      (defined companyHandle); reflexivity.
  - rewrite Job_sqlWhereBuilder_walk. unfold buildWhere.
    rewrite <- (walk_values _ 1). now destruct (walk _ 1).
Qed.

Lemma fragment_text_independent_of_values_witness :
  match sqlForPartialUpdate [("title", VStr "Job1")] [],
        sqlForPartialUpdate [("title", VStr "';SELECT * FROM jobs;")] [] with
  | Ok f, Ok f' =>
      setCols f = setCols f'
      /\ values f = Object_values [("title", VStr "Job1")]
      /\ values f' = Object_values [("title", VStr "';SELECT * FROM jobs;")]
  | Err e, Err e' => e = e'
  | _, _ => False
  end
  /\ whereClause (Company._sqlWhereBuilder (VStr "c") (VNum 1) VUndefined)
     = whereClause (Company._sqlWhereBuilder (VStr "';SELECT") (VStr "x") VUndefined)
  /\ whereValues (Company._sqlWhereBuilder (VStr "c") (VNum 1) VUndefined)
     = bound_values (company_criteria (VStr "c") (VNum 1) VUndefined)
  /\ whereClause (Job._sqlWhereBuilder VUndefined (VBool true) (VStr "Job1") VUndefined)
     = whereClause (Job._sqlWhereBuilder VUndefined (VBool true)
                                         (VStr "';SELECT * FROM jobs;") VUndefined)
  /\ whereValues (Job._sqlWhereBuilder VUndefined (VBool true) (VStr "Job1") VUndefined)
     = bound_values (job_criteria VUndefined (VBool true) (VStr "Job1") VUndefined).
Proof.
  apply (fragment_text_independent_of_values
           [("title", VStr "Job1")] [("title", VStr "';SELECT * FROM jobs;")] []
           (VStr "c") (VNum 1) VUndefined (VStr "';SELECT") (VStr "x") VUndefined
           VUndefined (VBool true) (VStr "Job1") VUndefined
           VUndefined (VBool true) (VStr "';SELECT * FROM jobs;") VUndefined);
    reflexivity.
Defined.

(** The text and the values of the model test's injection attempt. *)
Example Job_sqlWhereBuilder_injection_attempt :
  Job._sqlWhereBuilder VUndefined VUndefined (VStr "';SELECT * FROM jobs;") VUndefined
  = {| whereClause := "WHERE title ILIKE $1";
       whereValues := [VStr "%';SELECT * FROM jobs;%"] |}.
Proof. reflexivity. Qed.

(** ** findAll: the statement sent *)

Lemma bind_ret {A : Type} (m : M A) (s : db) : (x <- m ;; ret x) s = m s.
Proof.
  unfold bind, ret. destruct (m s) as [[a|e] s']; reflexivity.
Qed.

Lemma Job_findAll_filtered (filterBy : object) (s : db) :
  filterBy <> [] ->
  Job.findAll (Obj filterBy) s
  = query_select_jobs
      (whereClause (Job._sqlWhereBuilder (prop filterBy "minSalary")
                      (prop filterBy "hasEquity") (prop filterBy "title")
                      (prop filterBy "companyHandle")))
      (whereValues (Job._sqlWhereBuilder (prop filterBy "minSalary")
                      (prop filterBy "hasEquity") (prop filterBy "title")
                      (prop filterBy "companyHandle")))
      s.
Proof.
  intros H. destruct filterBy as [|p o]; [congruence|].
  unfold Job.findAll. simpl Nat.ltb. cbv iota. apply bind_ret.
Qed.

Lemma Company_findAll_filtered (filterBy : object) (s : db) :
  filterBy <> [] ->
  Company.findAll (Obj filterBy) s
  = query_select_companies
      (whereClause (Company._sqlWhereBuilder (prop filterBy "name")
                      (prop filterBy "minEmp") (prop filterBy "maxEmp")))
      (whereValues (Company._sqlWhereBuilder (prop filterBy "name")
                      (prop filterBy "minEmp") (prop filterBy "maxEmp")))
      s.
Proof.
  intros H. destruct filterBy as [|p o]; [congruence|].
  unfold Company.findAll. simpl Nat.ltb. cbv iota. apply bind_ret.
Qed.

Lemma Job_findAll_unfiltered (filterBy : jsarg) (s : db) :
  match filterBy with Prim _ => True | Obj o => o = [] end ->
  Job.findAll filterBy s = query_select_jobs EmptyString [] s.
Proof.
  intros H. destruct filterBy as [v|o]; [|subst o]; unfold Job.findAll; apply bind_ret.
Qed.

Lemma Company_findAll_unfiltered (filterBy : jsarg) (s : db) :
  match filterBy with Prim _ => True | Obj o => o = [] end ->
  Company.findAll filterBy s = query_select_companies EmptyString [] s.
Proof.
  intros H. destruct filterBy as [v|o]; [|subst o]; unfold Company.findAll; apply bind_ret.
Qed.

(** C6 fails on the code: with no active criterion both builders return
    the bare keyword, not an empty fragment, and [findAll] sends a statement
    the server refuses.  A filter object reaches the builders this way as
    soon as it has a key and none of the criteria is active; the handler of
    [GET /jobs] does it for [?hasEquity=true], where the route's test
    expects the jobs with equity. *)
Theorem sqlWhereBuilder_no_active_criterion (s : db) :
  Job._sqlWhereBuilder VUndefined (VBool false) VUndefined VUndefined
  = {| whereClause := "WHERE "; whereValues := [] |}
  /\ Company._sqlWhereBuilder VUndefined VUndefined VUndefined
     = {| whereClause := "WHERE "; whereValues := [] |}
  /\ Job.findAll (Obj [("hasEquity", VBool false)]) s
     = (Err (DatabaseError syntax_error), logged (SelectJobs "WHERE " []) s)
  /\ Company.findAll (Obj [("minEmployees", VNum 2)]) s
     = (Err (DatabaseError syntax_error), logged (SelectCompanies "WHERE " []) s)
  /\ GET_jobs [("hasEquity", VStr "true")] s
     = (Err (DatabaseError syntax_error), logged (SelectJobs "WHERE " []) s).
Proof.
  repeat split.
Qed.

(** C5, as the specification states it, fails: a filter object providing
    minEmployees sends no predicate on [num_employees] and binds nothing. *)
Lemma Company_findAll_minEmployees_not_applied :
  log (snd (Company.findAll (Obj [("minEmployees", VNum 2)]) testDb))
  = [SelectCompanies "WHERE " []]
  /\ log (snd (Company.findAll (Obj [("minEmployees", VNum 2)]) testDb))
     <> [SelectCompanies "WHERE num_employees >= $1" [VNum 2]]
  /\ fst (Company.findAll (Obj [("minEmployees", VNum 2)]) testDb)
     = Err (DatabaseError syntax_error).
Proof.
  split; [reflexivity|]. split; [|reflexivity]. vm_compute. discriminate.
Qed.

(** C5, amended: for a filter object with at least one key,
    [Company.findAll] sends the SELECT over [companies] with the fragment
    and the values of the specification's walk over three criteria in the
    order name, minEmp, maxEmp (the keys it reads from the filter object):
    a provided name gives [name ILIKE $n] bound to the name between two
    [%], a provided minEmp gives [num_employees >= $n], a provided maxEmp
    gives [num_employees <= $n], each taking the next position, joined
    with AND after WHERE. *)
Theorem Company_findAll_criteria (filterBy : object) (s : db) :
  filterBy <> [] ->
  let name := prop filterBy "name" in
  let minEmp := prop filterBy "minEmp" in
  let maxEmp := prop filterBy "maxEmp" in
  let criteria :=
    [ (if defined name
       then Bound "name ILIKE " (VStr ("%" ++ to_string name ++ "%")) else Inactive);
      (if defined minEmp then Bound "num_employees >= " minEmp else Inactive);
      (if defined maxEmp then Bound "num_employees <= " maxEmp else Inactive) ] in
  Company.findAll (Obj filterBy) s
  = query_select_companies ("WHERE " ++ join " AND " (fst (walk criteria 1)))
                           (bound_values criteria) s
  /\ log (snd (Company.findAll (Obj filterBy) s))
     = (log s ++ [SelectCompanies ("WHERE " ++ join " AND " (fst (walk criteria 1)))
                                  (bound_values criteria)])%list.
Proof.
  intros H name minEmp maxEmp criteria.
  assert (E : Company._sqlWhereBuilder name minEmp maxEmp
              = {| whereClause := "WHERE " ++ join " AND " (fst (walk criteria 1));
                   whereValues := bound_values criteria |}).
  { rewrite Company_sqlWhereBuilder_walk. unfold buildWhere.
    change (company_criteria name minEmp maxEmp) with criteria.
    rewrite <- (walk_values criteria 1). now destruct (walk criteria 1). }
  rewrite (Company_findAll_filtered filterBy s H).
  fold name minEmp maxEmp. rewrite E. simpl whereClause. simpl whereValues.
  split; reflexivity.
Qed.

Lemma Company_findAll_criteria_witness :
  [("name", VStr "c"); ("minEmp", VNum 2)] <> []
  /\ Company.findAll (Obj [("name", VStr "c"); ("minEmp", VNum 2)]) testDb
     = query_select_companies "WHERE name ILIKE $1 AND num_employees >= $2"
                              [VStr "%c%"; VNum 2] testDb
  /\ log (snd (Company.findAll (Obj [("name", VStr "c"); ("minEmp", VNum 2)]) testDb))
     = [SelectCompanies "WHERE name ILIKE $1 AND num_employees >= $2"
                        [VStr "%c%"; VNum 2]].
Proof.
  split; [discriminate|].
  apply (Company_findAll_criteria [("name", VStr "c"); ("minEmp", VNum 2)] testDb).
  discriminate.
Defined.

(** C10: for a filter object with at least one key, [Company.findAll]
    calls the builder with the properties name, minEmp and maxEmp of the
    object and sends what it returns; nothing else of the object is read:
    two such objects that agree on these three properties behave alike.  So
    a provided minEmp gives [num_employees >= $n] and a provided maxEmp
    gives [num_employees <= $n], while an object with only the keys
    minEmployees and maxEmployees reaches the builder with every
    criterion undefined. *)
Theorem Company_findAll_reads_minEmp_maxEmp (filterBy : object) (s : db) :
  filterBy <> [] ->
  Company.findAll (Obj filterBy) s
  = query_select_companies
      (whereClause (Company._sqlWhereBuilder (prop filterBy "name")
                      (prop filterBy "minEmp") (prop filterBy "maxEmp")))
      (whereValues (Company._sqlWhereBuilder (prop filterBy "name")
                      (prop filterBy "minEmp") (prop filterBy "maxEmp")))
      s
  /\ (forall filterBy' : object,
        filterBy' <> [] ->
        prop filterBy' "name" = prop filterBy "name" ->
        prop filterBy' "minEmp" = prop filterBy "minEmp" ->
        prop filterBy' "maxEmp" = prop filterBy "maxEmp" ->
        Company.findAll (Obj filterBy') s = Company.findAll (Obj filterBy) s)
  /\ (forall v : value,
        defined v = true ->
        Company.findAll (Obj [("minEmp", v)]) s
        = query_select_companies "WHERE num_employees >= $1" [v] s
        /\ Company.findAll (Obj [("maxEmp", v)]) s
           = query_select_companies "WHERE num_employees <= $1" [v] s
        /\ forall v' : value,
            defined v' = true ->
            Company.findAll (Obj [("minEmp", v); ("maxEmp", v')]) s
            = query_select_companies
                "WHERE num_employees >= $1 AND num_employees <= $2" [v; v'] s)
  /\ (forall v v' : value,
        Company.findAll (Obj [("minEmployees", v); ("maxEmployees", v')]) s
        = query_select_companies
            (whereClause (Company._sqlWhereBuilder VUndefined VUndefined VUndefined))
            (whereValues (Company._sqlWhereBuilder VUndefined VUndefined VUndefined))
            s
        /\ Company._sqlWhereBuilder VUndefined VUndefined VUndefined
           = {| whereClause := "WHERE "; whereValues := [] |}).
Proof.
  intros H. split; [|split; [|split]].
  - now apply Company_findAll_filtered.
  - intros o' Ho' Hn Hmin Hmax.
    rewrite (Company_findAll_filtered o' s Ho'), (Company_findAll_filtered filterBy s H).
    now rewrite Hn, Hmin, Hmax.
  - intros v Hv. split; [|split].
    + rewrite Company_findAll_filtered by discriminate. simpl prop.
      unfold Company._sqlWhereBuilder. simpl defined at 1 3. rewrite Hv. reflexivity.
    + rewrite Company_findAll_filtered by discriminate. simpl prop.
      unfold Company._sqlWhereBuilder. simpl defined at 1 2. rewrite Hv. reflexivity.
    + intros v' Hv'. rewrite Company_findAll_filtered by discriminate. simpl prop.
      unfold Company._sqlWhereBuilder. simpl defined at 1. rewrite Hv, Hv'. reflexivity.
  - intros v v'. split; [|reflexivity].
    rewrite Company_findAll_filtered by discriminate. reflexivity.
Qed.

Lemma Company_findAll_reads_minEmp_maxEmp_witness :
  [("minEmp", VNum 2); ("minEmployees", VNum 7)] <> []
  /\ Company.findAll (Obj [("minEmp", VNum 2); ("minEmployees", VNum 7)]) testDb
     = query_select_companies "WHERE num_employees >= $1" [VNum 2] testDb.
Proof.
  split; [discriminate|].
  destruct (Company_findAll_reads_minEmp_maxEmp
              [("minEmp", VNum 2); ("minEmployees", VNum 7)] testDb) as [H _].
  - discriminate.
  - exact H.
Defined.

(** ** ORDER BY *)

Section OrderBy.

Context {A : Type} (le : A -> A -> bool).

Lemma insert_by_perm (x : A) (l : list A) : Permutation (insert_by le x l) (x :: l).
Proof.
  induction l as [|y l IH]; simpl.
  - apply Permutation_refl.
  - destruct (le x y).
    + apply Permutation_refl.
    + apply Permutation_trans with (y :: x :: l).
      * now apply perm_skip.
      * apply perm_swap.
Qed.

Lemma sort_by_perm (l : list A) : Permutation (sort_by le l) l.
Proof.
  induction l as [|x l IH]; simpl.
  - apply Permutation_refl.
  - apply Permutation_trans with (x :: sort_by le l).
    + apply insert_by_perm.
    + now apply perm_skip.
Qed.

Hypothesis le_total : forall a b : A, le a b = true \/ le b a = true.

Lemma insert_by_hd (x y : A) (l : list A) :
  le y x = true -> HdRel (fun a b => le a b = true) y l ->
  HdRel (fun a b => le a b = true) y (insert_by le x l).
Proof.
  intros Hyx Hy. destruct l as [|z l]; simpl.
  - now constructor.
  - destruct (le x z); constructor; [exact Hyx | now inversion Hy].
Qed.

Lemma insert_by_sorted (x : A) (l : list A) :
  Sorted (fun a b => le a b = true) l ->
  Sorted (fun a b => le a b = true) (insert_by le x l).
Proof.
  induction 1 as [|y l Hs IH Hy]; simpl.
  - repeat constructor.
  - destruct (le x y) eqn:Hxy.
    + constructor; [now constructor | now constructor].
    + constructor; [exact IH|].
      apply insert_by_hd; [|exact Hy].
      destruct (le_total x y) as [H|H]; [congruence | exact H].
Qed.

Lemma sort_by_sorted (l : list A) : Sorted (fun a b => le a b = true) (sort_by le l).
Proof.
  induction l as [|x l IH]; simpl.
  - constructor.
  - now apply insert_by_sorted.
Qed.

End OrderBy.

(** ** SELECT *)

Lemma filter_all {A : Type} (l : list A) : filter (fun _ => true) l = l.
Proof.
  induction l as [|x l IH]; simpl; [reflexivity | now rewrite IH].
Qed.

Lemma select_where_all {R : Type} (sch : schema) (col : R -> string -> dbval)
    (le : string -> string -> bool) (rows : list R) :
  select_where sch col le EmptyString [] rows = Ok rows.
Proof.
  unfold select_where. simpl. now rewrite filter_all.
Qed.

Lemma select_where_incl {R : Type} (sch : schema) (col : R -> string -> dbval)
    (le : string -> string -> bool) (w : string) (params : list value)
    (rows selected : list R) :
  select_where sch col le w params rows = Ok selected -> incl selected rows.
Proof.
  unfold select_where.
  destruct (parse_where w) as [preds|]; [|discriminate].
  destruct (placeholders_ok _ _); [|discriminate].
  destruct (mapM _ preds) as [bound|e]; [|discriminate].
  intros H. injection H as <-. intros r Hr. now apply filter_In in Hr.
Qed.

Lemma select_company_rows (handle : value) (s : db) :
  fst (query_select_company [handle] s)
  = Ok (filter (fun c => match pg_text handle with
                         | Some h => String.eqb (co_handle c) h
                         | None => false
                         end) (companies s)).
Proof.
  unfold query_select_company, select_where. simpl fst.
  change (parse_where "WHERE handle = $1")
    with (Some [{| p_col := "handle"; p_op := OpEq; p_arg := OParam 1 |}]).
  cbv beta iota.
  change (placeholders_ok _ _) with true. cbv iota.
  unfold mapM, bind_pred. simpl lookup_col. cbv beta iota. simpl p_arg. cbv iota.
  unfold bind_param. simpl nth_error. unfold coerce.
  destruct (pg_text handle) as [h|]; simpl; f_equal; apply filter_ext; intros c;
    now rewrite ?andb_true_r.
Qed.

(** ** Company.get *)

Lemma Company_get_unfold (handle : value) (s : db) :
  Company.get handle s
  = let rows := filter (fun c => match pg_text handle with
                                 | Some h => String.eqb (co_handle c) h
                                 | None => false
                                 end) (companies s) in
    let s1 := logged (SelectCompany [handle]) s in
    let jobs := Job.findAll (Obj [("companyHandle", handle)]) s1 in
    match first_row rows with
    | None => (Err TypeError, snd jobs)
    | Some c => (Ok {| company_row := c; company_jobs := Promise (fst jobs) |}, snd jobs)
    end.
Proof.
  unfold Company.get, bind at 1.
  pose proof (select_company_rows handle s) as Hsel.
  destruct (query_select_company [handle] s) as [r s1] eqn:Hq.
  simpl in Hsel. subst r.
  assert (Hs1 : s1 = logged (SelectCompany [handle]) s).
  { unfold query_select_company in Hq. now injection Hq. }
  subst s1. cbv zeta.
  unfold bind, not_awaited, lift, set_jobs, throw, ret.
  destruct (first_row _); reflexivity.
Qed.

(** C7 fails on the code: when no company has the handle, [Company.get]
    does not reach its NotFoundError; the assignment of the [jobs]
    property comes first and throws a TypeError on [undefined]. *)
Theorem Company_get_missing_handle (handle : value) (s : db) :
  (forall c : company, In c (companies s) -> pg_text handle <> Some (co_handle c)) ->
  fst (Company.get handle s) = Err TypeError
  /\ fst (Company.get handle s) <> Err (NotFoundError ("No company: " ++ to_string handle)).
Proof.
  intros Hnone.
  assert (E : fst (Company.get handle s) = Err TypeError).
  { rewrite Company_get_unfold. cbv zeta.
    destruct (filter _ (companies s)) as [|c rows] eqn:Hf; [reflexivity|].
    exfalso.
    assert (Hin : In c (filter (fun c => match pg_text handle with
                                         | Some h => String.eqb (co_handle c) h
                                         | None => false
                                         end) (companies s))).
    { rewrite Hf. now left. }
    apply filter_In in Hin. destruct Hin as [Hc Hm].
    destruct (pg_text handle) as [h|] eqn:Hh; [|discriminate].
    apply String.eqb_eq in Hm. apply (Hnone c Hc). now rewrite Hm. }
  split; [exact E|]. rewrite E. discriminate.
Qed.

Lemma Company_get_missing_handle_witness :
  (forall c : company, In c (companies testDb) -> pg_text (VStr "nope") <> Some (co_handle c))
  /\ fst (Company.get (VStr "nope") testDb) = Err TypeError
  /\ fst (Company.get (VStr "nope") testDb)
     <> Err (NotFoundError ("No company: " ++ to_string (VStr "nope"))).
Proof.
  assert (H : forall c : company,
             In c (companies testDb) -> pg_text (VStr "nope") <> Some (co_handle c)).
  { intros c [<-|[<-|[]]]; discriminate. }
  split; [exact H|]. exact (Company_get_missing_handle (VStr "nope") testDb H).
Defined.

(** When the company exists, its [jobs] property holds the promise of the
    [Job.findAll] call that was not awaited, and that call filters by
    substring. *)
Lemma Company_get_found (handle : value) (s : db) (c : company) (rows : list company) :
  filter (fun c => match pg_text handle with
                   | Some h => String.eqb (co_handle c) h
                   | None => false
                   end) (companies s) = c :: rows ->
  fst (Company.get handle s)
  = Ok {| company_row := c;
          company_jobs :=
            Promise (fst (Job.findAll (Obj [("companyHandle", handle)])
                                      (logged (SelectCompany [handle]) s))) |}.
Proof.
  intros Hf. rewrite Company_get_unfold. cbv zeta. now rewrite Hf.
Qed.

Example Company_get_jobs_of_other_companies :
  fst (Company.get (VStr "c1") overlapDb)
  = Ok {| company_row := C1co; company_jobs := Promise (Ok [Job1; Job4]) |}
  /\ job_companyHandle Job4 <> "c1".
Proof.
  split; [vm_compute; reflexivity | discriminate].
Qed.

(** ** findAll: the records returned *)

Lemma query_select_jobs_sorted (w : string) (params : list value) (s : db) (rows : list job) :
  (forall a b : string, collate s a b = true \/ collate s b a = true) ->
  fst (query_select_jobs w params s) = Ok rows ->
  Sorted (fun a b => collate s (job_title a) (job_title b) = true) rows
  /\ incl rows (jobs s).
Proof.
  intros Htot. unfold query_select_jobs. simpl fst.
  destruct (select_where _ _ _ w params (jobs s)) as [sel|e] eqn:Hsel; [|discriminate].
  intros H. injection H as <-. split.
  - apply (sort_by_sorted (fun a b => collate s (job_title a) (job_title b))).
    intros a b. apply Htot.
  - intros r Hr. apply (select_where_incl _ _ _ _ _ _ _ Hsel).
    apply (Permutation_in _ (sort_by_perm _ sel) Hr).
Qed.

Lemma query_select_companies_sorted (w : string) (params : list value) (s : db)
    (rows : list company) :
  (forall a b : string, collate s a b = true \/ collate s b a = true) ->
  fst (query_select_companies w params s) = Ok rows ->
  Sorted (fun a b => collate s (co_name a) (co_name b) = true) rows
  /\ incl rows (companies s).
Proof.
  intros Htot. unfold query_select_companies. simpl fst.
  destruct (select_where _ _ _ w params (companies s)) as [sel|e] eqn:Hsel; [|discriminate].
  intros H. injection H as <-. split.
  - apply (sort_by_sorted (fun a b => collate s (co_name a) (co_name b))).
    intros a b. apply Htot.
  - intros r Hr. apply (select_where_incl _ _ _ _ _ _ _ Hsel).
    apply (Permutation_in _ (sort_by_perm _ sel) Hr).
Qed.

Lemma Job_findAll_query (filterBy : jsarg) (s : db) :
  exists (w : string) (params : list value),
    Job.findAll filterBy s = query_select_jobs w params s.
Proof.
  destruct filterBy as [v|[|p o]].
  - exists EmptyString, []. now apply Job_findAll_unfiltered.
  - exists EmptyString, []. now apply Job_findAll_unfiltered.
  - eexists. eexists. apply Job_findAll_filtered. discriminate.
Qed.

Lemma Company_findAll_query (filterBy : jsarg) (s : db) :
  exists (w : string) (params : list value),
    Company.findAll filterBy s = query_select_companies w params s.
Proof.
  destruct filterBy as [v|[|p o]].
  - exists EmptyString, []. now apply Company_findAll_unfiltered.
  - exists EmptyString, []. now apply Company_findAll_unfiltered.
  - eexists. eexists. apply Company_findAll_filtered. discriminate.
Qed.

(** C9: under a collation that compares any two texts, [findAll] of
    either model, called with no filter object (or any primitive) or with
    an empty object, sends the SELECT with nothing interpolated and returns
    all the rows of its table; and whatever the filter, the rows a
    successful [findAll] returns are rows of the table in the order of
    their title (jobs) or name (companies).  On the three jobs of the
    specification, [findAll({minSalary: 150})] is [Job2; Job3]. *)
Theorem findAll_unfiltered_and_ordered (s : db) :
  (forall a b : string, collate s a b = true \/ collate s b a = true) ->
  (forall filterBy : jsarg,
     match filterBy with Prim _ => True | Obj o => o = [] end ->
     (exists rows : list job,
        Job.findAll filterBy s = (Ok rows, logged (SelectJobs EmptyString []) s)
        /\ Permutation rows (jobs s))
     /\ (exists rows : list company,
           Company.findAll filterBy s = (Ok rows, logged (SelectCompanies EmptyString []) s)
           /\ Permutation rows (companies s)))
  /\ (forall (filterBy : jsarg) (rows : list job),
        fst (Job.findAll filterBy s) = Ok rows ->
        Sorted (fun a b => collate s (job_title a) (job_title b) = true) rows
        /\ incl rows (jobs s))
  /\ (forall (filterBy : jsarg) (rows : list company),
        fst (Company.findAll filterBy s) = Ok rows ->
        Sorted (fun a b => collate s (co_name a) (co_name b) = true) rows
        /\ incl rows (companies s))
  /\ fst (Job.findAll (Obj [("minSalary", VNum 150)]) threeJobs) = Ok [Job2; Job3]
  /\ fst (Job.findAll (Obj [("minSalary", VNum 150)]) testDb) = Ok [Job2; Job3].
Proof.
  intros Htot. split; [|split; [|split; [|split]]].
  - intros filterBy Hf. split.
    + exists (sort_by (fun a b => collate s (job_title a) (job_title b)) (jobs s)).
      split; [|apply sort_by_perm].
      rewrite (Job_findAll_unfiltered filterBy s Hf).
      unfold query_select_jobs. now rewrite select_where_all.
    + exists (sort_by (fun a b => collate s (co_name a) (co_name b)) (companies s)).
      split; [|apply sort_by_perm].
      rewrite (Company_findAll_unfiltered filterBy s Hf).
      unfold query_select_companies. now rewrite select_where_all.
  - intros filterBy rows H.
    destruct (Job_findAll_query filterBy s) as [w [params E]]. rewrite E in H.
    now apply (query_select_jobs_sorted w params).
  - intros filterBy rows H.
    destruct (Company_findAll_query filterBy s) as [w [params E]]. rewrite E in H.
    now apply (query_select_companies_sorted w params).
  - vm_compute. reflexivity.
  - vm_compute. reflexivity.
Qed.

Lemma findAll_unfiltered_and_ordered_witness :
  (forall a b : string, collate testDb a b = true \/ collate testDb b a = true)
  /\ (exists rows : list job,
        Job.findAll (Prim VUndefined) testDb
        = (Ok rows, logged (SelectJobs EmptyString []) testDb)
        /\ Permutation rows (jobs testDb))
  /\ (exists rows : list company,
        Company.findAll (Obj []) testDb
        = (Ok rows, logged (SelectCompanies EmptyString []) testDb)
        /\ Permutation rows (companies testDb))
  /\ (forall rows : list job,
        fst (Job.findAll (Obj [("title", VStr "job")]) testDb) = Ok rows ->
        Sorted (fun a b => collate testDb (job_title a) (job_title b) = true) rows
        /\ incl rows (jobs testDb)).
Proof.
  assert (H : forall a b : string,
             collate testDb a b = true \/ collate testDb b a = true)
    by (intros a b; apply String.leb_total).
  destruct (findAll_unfiltered_and_ordered testDb H) as [Hall [Hjobs _]].
  split; [exact H|]. split; [|split].
  - exact (proj1 (Hall (Prim VUndefined) I)).
  - exact (proj2 (Hall (Obj []) eq_refl)).
  - intros rows. apply Hjobs.
Defined.

(** ** findAll: the rows selected *)



(** The filters of the model's tests, on the three jobs. *)
Example Job_findAll_filters :
  fst (Job.findAll (Obj [("title", VStr "Job1")]) testDb) = Ok [Job1]
  /\ fst (Job.findAll (Obj [("minSalary", VNum 150)]) testDb) = Ok [Job2; Job3]
  /\ fst (Job.findAll (Obj [("hasEquity", VBool true)]) testDb) = Ok [Job1; Job3]
  /\ fst (Job.findAll (Obj [("companyHandle", VStr "c1")]) testDb) = Ok [Job1; Job3]
  /\ fst (Job.findAll (Obj [("title", VStr "';SELECT * FROM jobs;")]) testDb) = Ok []
  /\ fst (Job.findAll (Prim VUndefined) testDb) = Ok [Job1; Job2; Job3].
Proof.
  repeat split; vm_compute; reflexivity.
Qed.



(** X3: [findAll] only reads: whatever the filter and the outcome, both
    tables are as they were. *)
Theorem findAll_reads_only (filterBy : jsarg) (s : db) :
  jobs (snd (Job.findAll filterBy s)) = jobs s
  /\ companies (snd (Job.findAll filterBy s)) = companies s
  /\ jobs (snd (Company.findAll filterBy s)) = jobs s
  /\ companies (snd (Company.findAll filterBy s)) = companies s.
Proof.
  destruct (Job_findAll_query filterBy s) as [w [params ->]].
  destruct (Company_findAll_query filterBy s) as [w' [params' ->]].
  repeat split.
Qed.

(** ** Decimal text *)

Lemma string_of_uint_nonempty (d : uint) :
  d <> Nil -> NilEmpty.string_of_uint d <> EmptyString.
Proof.
  destruct d; simpl; intros H; congruence.
Qed.

Lemma dec_nonempty (n : nat) : dec n <> EmptyString.
Proof.
  unfold dec. apply string_of_uint_nonempty.
  rewrite <- (Unsigned.of_to n) at 1. rewrite Unsigned.to_of. apply unorm_nonnil.
Qed.

Lemma parse_nat_dec (n : nat) : parse_nat (dec n) = Some n.
Proof.
  unfold parse_nat. pose proof (dec_nonempty n) as Hne.
  destruct (dec n) eqn:E; [congruence|].
  rewrite <- E. unfold dec. rewrite NilEmpty.usu. simpl. now rewrite Unsigned.of_to.
Qed.

Lemma string_of_uint_no_char (c : ascii) :
  forallb (fun d => negb (Ascii.eqb d c))
          ["0"; "1"; "2"; "3"; "4"; "5"; "6"; "7"; "8"; "9"]%char = true ->
  forall d : uint, occurs c (NilEmpty.string_of_uint d) = false.
Proof.
  intros H.
  assert (Hall : forall x : ascii,
             In x ["0"; "1"; "2"; "3"; "4"; "5"; "6"; "7"; "8"; "9"]%char ->
             Ascii.eqb x c = false).
  { intros x Hx. rewrite forallb_forall in H. apply negb_true_iff. now apply H. }
  clear H.
  induction d; cbn [NilEmpty.string_of_uint occurs]; rewrite ?IHd; try reflexivity;
    rewrite Hall; try reflexivity; cbn [In]; tauto.
Qed.

Lemma dec_no_comma (n : nat) : occurs "," (dec n) = false.
Proof. now apply string_of_uint_no_char. Qed.

Lemma dec_no_quote (n : nat) : occurs (ascii_of_nat 34) (dec n) = false.
Proof. now apply string_of_uint_no_char. Qed.

(** ** Splitting text *)

Lemma split_on_none (c : ascii) (s : string) :
  occurs c s = false -> split_on c s = [s].
Proof.
  induction s as [|a s IH]; simpl; intros H.
  - reflexivity.
  - apply orb_false_iff in H. destruct H as [Ha Hs].
    rewrite Ha, (IH Hs). reflexivity.
Qed.

Lemma split_on_app (c : ascii) (a b : string) :
  occurs c a = false -> split_on c (a ++ String c b) = a :: split_on c b.
Proof.
  induction a as [|x a IH]; simpl; intros H.
  - now rewrite Ascii.eqb_refl.
  - apply orb_false_iff in H. destruct H as [Hx Ha].
    rewrite Hx, (IH Ha). reflexivity.
Qed.

Lemma append_assoc (a b c : string) : (a ++ b) ++ c = a ++ b ++ c.
Proof.
  induction a as [|x a IH]; simpl; [reflexivity | now rewrite IH].
Qed.

Lemma occurs_app (c : ascii) (a b : string) :
  occurs c (a ++ b) = occurs c a || occurs c b.
Proof.
  induction a as [|x a IH]; simpl.
  - reflexivity.
  - now rewrite IH, orb_assoc.
Qed.

(** ** The SET fragment, read back *)

Lemma mapi_from_map {A B C : Type} (g : A -> B) (f : B -> nat -> C) (l : list A) :
  forall i, mapi_from (fun x idx => f (g x) idx) i l = mapi_from f i (map g l).
Proof.
  induction l as [|x l IH]; intros i; simpl; [reflexivity | now rewrite IH].
Qed.

Lemma cols_clauses (keys : list string) (jsToSql : object) :
  cols keys jsToSql = mapi_from clause 0 (map (physical jsToSql) keys).
Proof.
  unfold cols, mapi. now rewrite <- mapi_from_map.
Qed.

Lemma clause_shape (p : string) (idx : nat) :
  clause p idx = String (ascii_of_nat 34) (p ++ String (ascii_of_nat 34) ("=$" ++ dec (idx + 1))).
Proof. reflexivity. Qed.

Lemma join_clauses_shape (p : string) (names : list string) (i : nat) :
  join ", " (mapi_from clause i (p :: names))
  = String (ascii_of_nat 34)
      (p ++ String (ascii_of_nat 34)
         (match names with
          | [] => "=$" ++ dec (i + 1)
          | _ :: _ => ("=$" ++ dec (i + 1) ++ ", ") ++ join ", " (mapi_from clause (S i) names)
          end)).
Proof.
  destruct names as [|p' names].
  - reflexivity.
  - cbn [mapi_from join String.concat]. rewrite clause_shape.
    cbn [String.append]. f_equal.
    rewrite append_assoc. cbn [String.append]. f_equal. f_equal. f_equal.
    now rewrite !append_assoc.
Qed.

Lemma split_join_clauses (names : list string) :
  Forall (fun p => occurs (ascii_of_nat 34) p = false) names ->
  forall i, names <> [] ->
  split_on (ascii_of_nat 34) (join ", " (mapi_from clause i names))
  = EmptyString :: pieces i names.
Proof.
  induction 1 as [|p names Hp Hnames IH]; intros i Hne; [congruence|].
  rewrite join_clauses_shape.
  cbn [split_on]. rewrite Ascii.eqb_refl. f_equal.
  rewrite (split_on_app _ _ _ Hp).
  destruct names as [|p' names].
  - cbn [pieces]. rewrite split_on_none; [reflexivity|].
    cbn [String.append occurs]. now rewrite dec_no_quote.
  - specialize (IH (S i) ltac:(discriminate)).
    rewrite (join_clauses_shape p' names (S i)) in IH |- *.
    remember (p' ++ String (ascii_of_nat 34)
                (match names with
                 | [] => "=$" ++ dec (S i + 1)
                 | _ :: _ => ("=$" ++ dec (S i + 1) ++ ", ")
                             ++ join ", " (mapi_from clause (S (S i)) names)
                 end)) as J eqn:EJ.
    clear EJ.
    change (split_on (ascii_of_nat 34) (String (ascii_of_nat 34) J))
      with (if Ascii.eqb (ascii_of_nat 34) (ascii_of_nat 34)
            then EmptyString :: split_on (ascii_of_nat 34) J
            else match split_on (ascii_of_nat 34) J with
                 | t :: ts => String (ascii_of_nat 34) t :: ts
                 | [] => [String (ascii_of_nat 34) EmptyString]
                 end) in IH.
    rewrite Ascii.eqb_refl in IH. injection IH as IH.
    rewrite split_on_app.
    + rewrite IH. reflexivity.
    + cbn [String.append occurs]. rewrite occurs_app, dec_no_quote. reflexivity.
Qed.

Lemma parse_assignments_pieces (names : list string) :
  Forall (fun p => p <> EmptyString) names ->
  forall i, names <> [] ->
  parse_assignments (pieces i names) = Some (combine names (seq (i + 1) (length names))).
Proof.
  induction 1 as [|p names Hp Hnames IH]; intros i Hne; [congruence|].
  assert (Ep : String.eqb p EmptyString = false) by now apply String.eqb_neq.
  destruct names as [|p' names].
  - cbn [pieces parse_assignments]. rewrite Ep.
    cbn [String.append strip_prefix]. rewrite !Ascii.eqb_refl.
    rewrite parse_nat_dec. reflexivity.
  - specialize (IH (S i) ltac:(discriminate)).
    change (pieces i (p :: p' :: names))
      with (p :: ("=$" ++ dec (i + 1) ++ ", ") :: pieces (S i) (p' :: names)).
    remember (pieces (S i) (p' :: names)) as rest eqn:Er.
    assert (Hrest : exists x xs, rest = x :: xs).
    { subst rest. destruct names; cbn [pieces]; eauto. }
    destruct Hrest as [x [xs Ex]].
    cbn [parse_assignments]. rewrite Ep.
    cbn [String.append strip_prefix]. rewrite !Ascii.eqb_refl.
    rewrite Ex at 1.
    change (dec (i + 1) ++ ", ") with (dec (i + 1) ++ String "," " ").
    rewrite (split_on_app "," (dec (i + 1)) " " (dec_no_comma _)).
    cbn [split_on]. cbn [Ascii.eqb Bool.eqb]. cbn [String.eqb Ascii.eqb Bool.eqb].
    rewrite parse_nat_dec, IH.
    cbn [length seq combine]. reflexivity.
Qed.

Lemma parse_set_cols (keys : list string) (jsToSql : object) :
  keys <> [] ->
  Forall (fun p => occurs (ascii_of_nat 34) p = false) (map (physical jsToSql) keys) ->
  Forall (fun p => p <> EmptyString) (map (physical jsToSql) keys) ->
  parse_set (join ", " (cols keys jsToSql))
  = Some (combine (map (physical jsToSql) keys)
                  (seq 1 (length (map (physical jsToSql) keys)))).
Proof.
  intros Hne Hq He. unfold parse_set. rewrite cols_clauses.
  assert (Hne' : map (physical jsToSql) keys <> []) by (destruct keys; [congruence|discriminate]).
  rewrite (split_join_clauses _ Hq 0 Hne'). cbn [String.eqb].
  now rewrite (parse_assignments_pieces _ He 0 Hne').
Qed.

(** ** UPDATE *)

Lemma lookup_col_In (sch : schema) (c : string) (ty : coltype) :
  lookup_col sch c = Some ty -> In c (map fst sch).
Proof.
  induction sch as [|[c' ty'] sch IH]; simpl; [discriminate|].
  destruct (String.eqb_spec c' c) as [->|Hne]; intros H.
  - now left.
  - right. now apply IH.
Qed.

Lemma has_dup_map_fst_combine (names : list string) (n : nat) :
  map fst (combine names (seq n (length names))) = names.
Proof.
  revert n. induction names as [|p names IH]; intros n; simpl; [reflexivity|].
  now rewrite IH.
Qed.

Lemma map_snd_combine (names : list string) (n : nat) :
  map snd (combine names (seq n (length names))) = seq n (length names).
Proof.
  revert n. induction names as [|p names IH]; intros n; simpl; [reflexivity|].
  now rewrite IH.
Qed.

Lemma placeholders_ok_update (n : nat) :
  placeholders_ok ((n + 1) :: seq 1 n) (n + 1) = true.
Proof.
  unfold placeholders_ok. apply andb_true_intro. split.
  - apply forallb_forall. intros r [<-|Hr].
    + apply andb_true_intro. split; apply Nat.leb_le; lia.
    + apply in_seq in Hr. apply andb_true_intro. split; apply Nat.leb_le; lia.
  - apply forallb_forall. intros i Hi. apply in_seq in Hi.
    apply existsb_exists. exists i. split; [|apply Nat.eqb_refl].
    destruct (Nat.eq_dec i (n + 1)) as [->|Hne]; [now left|].
    right. apply in_seq. lia.
Qed.

Lemma mapM_bind_assignment (sch : schema) (jsToSql : object) (post : list value)
    (data : object) :
  forallb (field_ok sch jsToSql) data = true ->
  forall pre : list value,
  exists bound : list (string * dbval),
    mapM (bind_assignment sch (pre ++ Object_values data ++ post))
         (combine (map (physical jsToSql) (Object_keys data))
                  (seq (length pre + 1) (length (Object_keys data))))
    = Ok bound.
Proof.
  induction data as [|[k v] data IH]; intros Hok pre.
  - exists []. reflexivity.
  - cbn [forallb] in Hok. apply andb_prop in Hok. destruct Hok as [Hkv Hdata].
    unfold field_ok in Hkv. cbn [fst snd] in Hkv.
    destruct (lookup_col sch (physical jsToSql k)) as [ty|] eqn:Hty; [|discriminate].
    destruct (coerce ty v) as [d|e] eqn:Hd; [|discriminate].
    destruct (IH Hdata (pre ++ [v])%list) as [bound Hbound].
    exists ((physical jsToSql k, d) :: bound).
    cbn [Object_keys Object_values map fst snd length seq combine mapM].
    unfold bind_assignment at 1. cbn [fst snd]. rewrite Hty.
    unfold bind_param.
    replace (length pre + 1 - 1) with (length pre) by lia.
    rewrite nth_error_app2 by lia. rewrite Nat.sub_diag.
    change (nth_error ((v :: map snd data) ++ post) 0) with (Some v).
    cbv iota. rewrite Hd.
    replace (pre ++ (v :: map snd data) ++ post)%list
      with ((pre ++ [v]) ++ Object_values data ++ post)%list
      by (rewrite <- app_assoc; reflexivity).
    replace (S (length pre + 1)) with (length (pre ++ [v])%list + 1)
      by (rewrite length_app; simpl; lia).
    unfold Object_keys in Hbound. rewrite Hbound. reflexivity.
Qed.

Lemma update_rows_no_match {R : Type} (matches : R -> bool) (upd : R -> option R)
    (rows : list R) :
  (forall r, In r rows -> matches r = false) ->
  update_rows matches upd rows = Some ([], rows).
Proof.
  induction rows as [|r rows IH]; intros H; simpl; [reflexivity|].
  rewrite IH by (intros r' Hr'; apply H; now right).
  now rewrite (H r (or_introl eq_refl)).
Qed.

Lemma well_typed_names (sch : schema) (jsToSql data : object) :
  plain_names sch = true ->
  forallb (field_ok sch jsToSql) data = true ->
  Forall (fun p => occurs (ascii_of_nat 34) p = false)
         (map (physical jsToSql) (Object_keys data))
  /\ Forall (fun p => p <> EmptyString) (map (physical jsToSql) (Object_keys data)).
Proof.
  intros Hplain Hok. unfold plain_names in Hplain. rewrite forallb_forall in Hplain, Hok.
  unfold Object_keys. rewrite map_map.
  split; apply Forall_forall; intros p Hp; apply in_map_iff in Hp;
    destruct Hp as [[k v] [<- Hkv]]; specialize (Hok _ Hkv); unfold field_ok in Hok;
    cbn [fst snd] in *;
    destruct (lookup_col sch (physical jsToSql k)) as [ty|] eqn:Hty; try discriminate;
    apply lookup_col_In in Hty; specialize (Hplain _ Hty);
    apply andb_prop in Hplain; destruct Hplain as [H1 H2].
  - now apply negb_true_iff in H1.
  - apply negb_true_iff in H2. now apply String.eqb_neq.
Qed.

Lemma update_where_no_match {R : Type} (sch : schema) (col : R -> string -> dbval)
    (set : R -> string -> dbval -> option R) (le : string -> string -> bool)
    (key : string) (kty : coltype) (jsToSql data : object) (id : value) (rows : list R) :
  data <> [] ->
  plain_names sch = true ->
  well_typed sch jsToSql data = true ->
  lookup_col sch key = Some kty ->
  key_ok kty id = true ->
  (forall (r : R) (kd : dbval),
      In r rows -> coerce kty id = Ok kd -> eval_op le OpEq (col r key) kd = false) ->
  update_where sch col set le key
               (join ", " (cols (Object_keys data) jsToSql))
               ("$" ++ dec (length (Object_values data) + 1))
               (Object_values data ++ [id])%list rows
  = Ok ([], rows).
Proof.
  intros Hne Hplain Hwt Hkey Hid Hrows.
  unfold well_typed in Hwt. apply andb_prop in Hwt. destruct Hwt as [Hdup Hok].
  apply negb_true_iff in Hdup.
  destruct (well_typed_names sch jsToSql data Hplain Hok) as [Hq He].
  assert (Hkeys : Object_keys data <> []) by (destruct data; [congruence|discriminate]).
  unfold update_where.
  rewrite (parse_set_cols _ _ Hkeys Hq He).
  unfold parse_placeholder. cbn [String.append strip_prefix]. rewrite Ascii.eqb_refl.
  rewrite parse_nat_dec.
  assert (Hlen : length (map (physical jsToSql) (Object_keys data))
                 = length (Object_keys data)) by apply length_map.
  rewrite has_dup_map_fst_combine, map_snd_combine, Hlen, Hdup.
  assert (Hlv : length (Object_values data) = length (Object_keys data))
    by (unfold Object_values, Object_keys; now rewrite !length_map).
  rewrite length_app, Hlv. cbn [length].
  rewrite placeholders_ok_update.
  destruct (mapM_bind_assignment sch jsToSql [id] data Hok []) as [bound Hbound].
  change (mapM (bind_assignment sch (Object_values data ++ [id]))
               (combine (map (physical jsToSql) (Object_keys data))
                        (seq 1 (length (Object_keys data)))) = Ok bound) in Hbound.
  rewrite Hbound.
  unfold bind_assignment. cbn [fst snd]. rewrite Hkey.
  unfold bind_param. replace (length (Object_keys data) + 1 - 1)
    with (length (Object_values data)) by lia.
  rewrite nth_error_app2 by lia. rewrite Nat.sub_diag. cbn [nth_error].
  unfold key_ok in Hid. destruct (coerce kty id) as [kd|e] eqn:Hkd; [|discriminate].
  rewrite update_rows_no_match; [reflexivity|].
  intros r Hr. now apply Hrows.
Qed.

(** ** update *)

Lemma Job_update_query (id : value) (data : object) (s : db) :
  data <> [] ->
  Job.update id data s
  = updated ("No job: " ++ to_string id)
      (query_update_jobs (join ", " (cols (Object_keys data) []))
                         ("$" ++ dec (length (Object_values data) + 1))
                         (Object_values data ++ [id])%list s).
Proof.
  intros Hne. unfold Job.update, bind at 1, lift.
  rewrite (sqlForPartialUpdate_nonempty data [] Hne). cbn [setCols values].
  unfold bind, updated.
  destruct (query_update_jobs _ _ _ s) as [[rows|e] s']; cbn [fst snd]; [|reflexivity].
  destruct (first_row rows); reflexivity.
Qed.

Lemma Company_update_query (handle : value) (data : object) (s : db) :
  data <> [] ->
  Company.update handle data s
  = updated ("No company: " ++ to_string handle)
      (query_update_companies
         (join ", " (cols (Object_keys data)
                          [("numEmployees", VStr "num_employees");
                           ("logoUrl", VStr "logo_url")]))
         ("$" ++ dec (length (Object_values data) + 1))
         (Object_values data ++ [handle])%list s).
Proof.
  intros Hne. unfold Company.update, bind at 1, lift.
  rewrite (sqlForPartialUpdate_nonempty data _ Hne). cbn [setCols values].
  unfold bind, updated.
  destruct (query_update_companies _ _ _ s) as [[rows|e] s']; cbn [fst snd]; [|reflexivity].
  destruct (first_row rows); reflexivity.
Qed.

Lemma query_update_jobs_log (setCols idVarIdx : string) (params : list value) (s : db) :
  log (snd (query_update_jobs setCols idVarIdx params s))
  = (log s ++ [UpdateJobs setCols idVarIdx params])%list.
Proof.
  unfold query_update_jobs.
  destruct (update_where _ _ _ _ _ _ _ _ _) as [[[|r returned] table]|e]; cbn [snd];
    try reflexivity.
  destruct (constraints s _ _); reflexivity.
Qed.

Lemma query_update_companies_log (setCols idVarIdx : string) (params : list value) (s : db) :
  log (snd (query_update_companies setCols idVarIdx params s))
  = (log s ++ [UpdateCompanies setCols idVarIdx params])%list.
Proof.
  unfold query_update_companies.
  destruct (update_where _ _ _ _ _ _ _ _ _) as [[[|r returned] table]|e]; cbn [snd];
    try reflexivity.
  destruct (constraints s _ _); reflexivity.
Qed.

Lemma updated_jobs_failure (missing setCols idVarIdx : string) (params : list value)
    (s : db) (e : error) :
  fst (updated missing (query_update_jobs setCols idVarIdx params s)) = Err e ->
  jobs (snd (updated missing (query_update_jobs setCols idVarIdx params s))) = jobs s
  /\ companies (snd (updated missing (query_update_jobs setCols idVarIdx params s)))
     = companies s.
Proof.
  unfold updated, query_update_jobs.
  destruct (update_where _ _ _ _ _ _ _ _ _) as [[[|r returned] table]|e']; cbn [fst snd];
    try (intros _; split; reflexivity).
  destruct (constraints s _ _); cbn [fst snd first_row nth_error].
  - discriminate.
  - intros _; split; reflexivity.
Qed.

Lemma updated_companies_failure (missing setCols idVarIdx : string) (params : list value)
    (s : db) (e : error) :
  fst (updated missing (query_update_companies setCols idVarIdx params s)) = Err e ->
  jobs (snd (updated missing (query_update_companies setCols idVarIdx params s))) = jobs s
  /\ companies (snd (updated missing (query_update_companies setCols idVarIdx params s)))
     = companies s.
Proof.
  unfold updated, query_update_companies.
  destruct (update_where _ _ _ _ _ _ _ _ _) as [[[|r returned] table]|e']; cbn [fst snd];
    try (intros _; split; reflexivity).
  destruct (constraints s _ _); cbn [fst snd first_row nth_error].
  - discriminate.
  - intros _; split; reflexivity.
Qed.

Lemma snd_updated {A : Type} (missing : string) (q : result (list A) * db) :
  snd (updated missing q) = snd q.
Proof.
  unfold updated. destruct (fst q) as [rows|e]; [|reflexivity].
  destruct (first_row rows); reflexivity.
Qed.

Lemma job_id_mismatch (le : string -> string -> bool) (id : value) (j : job) (kd : dbval) :
  coerce TInt id <> Ok (DInt (job_id j)) ->
  coerce TInt id = Ok kd ->
  eval_op le OpEq (job_col j "id") kd = false.
Proof.
  intros Hne Hkd. change (job_col j "id") with (DInt (job_id j)).
  destruct kd as [|z|t|q]; cbn [eval_op]; try reflexivity.
  destruct (Z.compare_spec (job_id j) z) as [E|L|G]; try reflexivity.
  exfalso. apply Hne. now rewrite Hkd, E.
Qed.

Lemma company_handle_mismatch (le : string -> string -> bool) (handle : value) (c : company)
    (kd : dbval) :
  pg_text handle <> Some (co_handle c) ->
  coerce TText handle = Ok kd ->
  eval_op le OpEq (company_col c "handle") kd = false.
Proof.
  intros Hne Hkd. change (company_col c "handle") with (DText (co_handle c)).
  unfold coerce in Hkd. destruct (pg_text handle) as [h|].
  - injection Hkd as <-. cbn [eval_op]. apply String.eqb_neq. congruence.
  - injection Hkd as <-. reflexivity.
Qed.

(** C8, amended: for a non-empty [data], each [update] method sends one
    UPDATE whose SET fragment is the partial-update builder's for the
    entity's field map, whose key placeholder is [$(|data| + 1)] and whose
    parameters are the values of [data] followed by the key; whenever it
    fails no row of either table has changed; and when the server accepts
    the statement (every physical name is a column, none twice, every value
    and the key read at their column's type) and no stored row has the key,
    it fails with NotFoundError. *)
Theorem update_missing_row (id handle : value) (data : object) (s : db) :
  data <> [] ->
  (exists fragment : update_fragment,
     sqlForPartialUpdate data [] = Ok fragment
     /\ log (snd (Job.update id data s))
        = (log s ++ [UpdateJobs (setCols fragment) ("$" ++ dec (length data + 1))
                                (values fragment ++ [id])])%list
     /\ values fragment = Object_values data)
  /\ (forall e : error,
        fst (Job.update id data s) = Err e ->
        jobs (snd (Job.update id data s)) = jobs s
        /\ companies (snd (Job.update id data s)) = companies s)
  /\ (well_typed jobs_schema [] data = true ->
      key_ok TInt id = true ->
      (forall j : job, In j (jobs s) -> coerce TInt id <> Ok (DInt (job_id j))) ->
      fst (Job.update id data s) = Err (NotFoundError ("No job: " ++ to_string id)))
  /\ (exists fragment : update_fragment,
        sqlForPartialUpdate data [("numEmployees", VStr "num_employees");
                                  ("logoUrl", VStr "logo_url")] = Ok fragment
        /\ log (snd (Company.update handle data s))
           = (log s ++ [UpdateCompanies (setCols fragment) ("$" ++ dec (length data + 1))
                                        (values fragment ++ [handle])])%list
        /\ values fragment = Object_values data)
  /\ (forall e : error,
        fst (Company.update handle data s) = Err e ->
        jobs (snd (Company.update handle data s)) = jobs s
        /\ companies (snd (Company.update handle data s)) = companies s)
  /\ (well_typed companies_schema
                 [("numEmployees", VStr "num_employees"); ("logoUrl", VStr "logo_url")]
                 data = true ->
      (forall c : company, In c (companies s) -> pg_text handle <> Some (co_handle c)) ->
      fst (Company.update handle data s)
      = Err (NotFoundError ("No company: " ++ to_string handle))).
Proof.
  intros Hne.
  assert (Hlen : length (Object_values data) = length data)
    by (unfold Object_values; apply length_map).
  split; [|split; [|split; [|split; [|split]]]].
  - eexists. split; [apply (sqlForPartialUpdate_nonempty data [] Hne)|].
    cbn [setCols values]. split; [|reflexivity].
    rewrite (Job_update_query id data s Hne), snd_updated, query_update_jobs_log.
    now rewrite Hlen.
  - intros e. rewrite (Job_update_query id data s Hne). apply updated_jobs_failure.
  - intros Hwt Hid Hrows. rewrite (Job_update_query id data s Hne).
    unfold updated, query_update_jobs.
    rewrite (update_where_no_match jobs_schema job_col job_set (collate s) "id" TInt
               [] data id (jobs s) Hne eq_refl Hwt eq_refl Hid).
    + reflexivity.
    + intros r kd Hr Hkd. apply (job_id_mismatch _ id); [now apply Hrows | exact Hkd].
  - eexists. split; [apply (sqlForPartialUpdate_nonempty data _ Hne)|].
    cbn [setCols values]. split; [|reflexivity].
    rewrite (Company_update_query handle data s Hne), snd_updated,
      query_update_companies_log.
    now rewrite Hlen.
  - intros e. rewrite (Company_update_query handle data s Hne).
    apply updated_companies_failure.
  - intros Hwt Hrows. rewrite (Company_update_query handle data s Hne).
    unfold updated, query_update_companies.
    rewrite (update_where_no_match companies_schema company_col company_set (collate s)
               "handle" TText _ data handle (companies s) Hne eq_refl Hwt eq_refl).
    + reflexivity.
    + unfold key_ok, coerce. now destruct (pg_text handle).
    + intros r kd Hr Hkd.
      apply (company_handle_mismatch _ handle); [now apply Hrows | exact Hkd].
Qed.

Lemma update_missing_row_witness :
  [("title", VStr "new nope")] <> []
  /\ well_typed jobs_schema [] [("title", VStr "new nope")] = true
  /\ key_ok TInt (VNum 0) = true
  /\ (forall j : job, In j (jobs testDb) -> coerce TInt (VNum 0) <> Ok (DInt (job_id j)))
  /\ fst (Job.update (VNum 0) [("title", VStr "new nope")] testDb)
     = Err (NotFoundError ("No job: " ++ to_string (VNum 0)))
  /\ jobs (snd (Job.update (VNum 0) [("title", VStr "new nope")] testDb)) = jobs testDb
  /\ log (snd (Job.update (VNum 0) [("title", VStr "new nope")] testDb))
     = [UpdateJobs (dquote ++ "title" ++ dquote ++ "=$1") "$2"
                   [VStr "new nope"; VNum 0]].
Proof.
  assert (Hne : [("title", VStr "new nope")] <> []) by discriminate.
  assert (Hrows : forall j : job,
             In j (jobs testDb) -> coerce TInt (VNum 0) <> Ok (DInt (job_id j))).
  { intros j [<-|[<-|[<-|[]]]]; vm_compute; discriminate. }
  destruct (update_missing_row (VNum 0) (VStr "nope") [("title", VStr "new nope")]
                               testDb Hne)
    as [[fragment [Hfrag [Hlog _]]] [Hfail [Hmiss _]]].
  pose proof (Hmiss eq_refl eq_refl Hrows) as Herr.
  split; [exact Hne|]. split; [reflexivity|]. split; [reflexivity|].
  split; [exact Hrows|]. split; [exact Herr|].
  split; [exact (proj1 (Hfail _ Herr))|].
  injection Hfrag as <-. exact Hlog.
Defined.

(** C8, as the specification states it, fails: for an id that is no
    integer no stored row matches, and the failure is the server's error,
    as the model's own test of [update] with the id [two] expects. *)
Lemma Job_update_string_id :
  (forall j : job, In j (jobs testDb) -> coerce TInt (VStr "two") <> Ok (DInt (job_id j)))
  /\ fst (Job.update (VStr "two")
                     [("title", VStr "JobUpdate"); ("salary", VNum 10000);
                      ("equity", VStr "0.3")] testDb)
     = Err (DatabaseError invalid_text_representation)
  /\ fst (Job.update (VStr "two")
                     [("title", VStr "JobUpdate"); ("salary", VNum 10000);
                      ("equity", VStr "0.3")] testDb)
     <> Err (NotFoundError "No job: two").
Proof.
  split; [|split].
  - intros j _. vm_compute. discriminate.
  - vm_compute. reflexivity.
  - vm_compute. discriminate.
Qed.

(** The model's other tests of [update]. *)
Example Job_update_works :
  fst (Job.update (VNum 1)
                  [("title", VStr "JobUpdate"); ("salary", VNum 10000);
                   ("equity", VStr "0.3")] testDb)
  = Ok {| job_id := 1; job_title := "JobUpdate"; job_salary := Some 10000%Z;
          job_equity := Some {| unscaled := 3; scale := 1 |};
          job_companyHandle := "c1" |}
  /\ fst (Job.update (VNum 1)
                     [("title", VStr "JobUpdate2"); ("salary", VNum 15000);
                      ("equity", VNull)] testDb)
     = Ok {| job_id := 1; job_title := "JobUpdate2"; job_salary := Some 15000%Z;
             job_equity := None; job_companyHandle := "c1" |}
  /\ fst (Job.update (VNum 0)
                     [("title", VStr "JobUpdate"); ("salary", VNum 10000);
                      ("equity", VStr "0.3")] testDb)
     = Err (NotFoundError "No job: 0").
Proof.
  repeat split; vm_compute; reflexivity.
Qed.

(** * The other methods of the models *)

(** ** SELECT and DELETE by key *)

Lemma eval_eq_job_id (le : string -> string -> bool) (id : value) (kd : dbval) (j : job) :
  coerce TInt id = Ok kd ->
  eval_op le OpEq (job_col j "id") kd = job_has_id id j.
Proof.
  intros Hkd. unfold job_has_id. rewrite Hkd.
  change (job_col j "id") with (DInt (job_id j)).
  destruct kd as [|z|t|q]; cbn [eval_op]; try reflexivity.
  unfold cmp_holds. rewrite <- Z.eqb_compare. reflexivity.
Qed.

Lemma eval_eq_co_handle (le : string -> string -> bool) (handle : value) (c : company) :
  match coerce TText handle with
  | Ok kd => eval_op le OpEq (company_col c "handle") kd = company_has_handle handle c
  | Err _ => False
  end.
Proof.
  unfold coerce, company_has_handle.
  change (company_col c "handle") with (DText (co_handle c)).
  destruct (pg_text handle); reflexivity.
Qed.

Lemma select_where_id (le : string -> string -> bool) (id : value) (rows : list job) :
  select_where jobs_schema job_col le "WHERE id = $1" [id] rows
  = match coerce TInt id with
    | Ok _ => Ok (filter (job_has_id id) rows)
    | Err e => Err e
    end.
Proof.
  unfold select_where. read_fragment jobs_schema.
  destruct (coerce TInt id) as [kd|e] eqn:Hkd; [|reflexivity].
  f_equal. apply filter_ext. intros j. cbn [forallb]. rewrite andb_true_r.
  now apply eval_eq_job_id.
Qed.

Lemma delete_where_id (le : string -> string -> bool) (id : value) (rows : list job) :
  delete_where jobs_schema job_col le "WHERE id = $1" [id] rows
  = match coerce TInt id with
    | Ok _ => Ok (filter (job_has_id id) rows,
                  filter (fun j => negb (job_has_id id j)) rows)
    | Err e => Err e
    end.
Proof.
  unfold delete_where. read_fragment jobs_schema.
  destruct (coerce TInt id) as [kd|e] eqn:Hkd; [|reflexivity].
  cbv zeta. f_equal. f_equal; apply filter_ext; intros j; cbn [forallb];
    rewrite andb_true_r, (eval_eq_job_id le id kd j Hkd); reflexivity.
Qed.

Lemma select_where_handle (le : string -> string -> bool) (handle : value)
    (rows : list company) :
  select_where companies_schema company_col le "WHERE handle = $1" [handle] rows
  = Ok (filter (company_has_handle handle) rows).
Proof.
  unfold select_where. read_fragment companies_schema.
  pose proof (fun c => eval_eq_co_handle le handle c) as H.
  destruct (coerce TText handle) as [kd|e] eqn:Hkd.
  - f_equal. apply filter_ext. intros c. cbn [forallb]. rewrite andb_true_r. apply H.
  - destruct (H C1co).
Qed.

Lemma delete_where_handle (le : string -> string -> bool) (handle : value)
    (rows : list company) :
  delete_where companies_schema company_col le "WHERE handle = $1" [handle] rows
  = Ok (filter (company_has_handle handle) rows,
        filter (fun c => negb (company_has_handle handle c)) rows).
Proof.
  unfold delete_where. read_fragment companies_schema.
  pose proof (fun c => eval_eq_co_handle le handle c) as H.
  destruct (coerce TText handle) as [kd|e] eqn:Hkd.
  - cbv zeta. f_equal. f_equal; apply filter_ext; intros c; cbn [forallb];
      rewrite andb_true_r, H; reflexivity.
  - destruct (H C1co).
Qed.

Lemma filter_none {A : Type} (p : A -> bool) (l : list A) :
  (forall x, In x l -> p x = false) -> filter p l = [].
Proof.
  induction l as [|x l IH]; intros H; simpl; [reflexivity|].
  rewrite (H x (or_introl eq_refl)). apply IH. intros y Hy. apply H. now right.
Qed.

Lemma filter_keeps_all {A : Type} (p : A -> bool) (l : list A) :
  (forall x, In x l -> p x = true) -> filter p l = l.
Proof.
  induction l as [|x l IH]; intros H; simpl; [reflexivity|].
  rewrite (H x (or_introl eq_refl)). f_equal. apply IH. intros y Hy. apply H. now right.
Qed.

Lemma filter_some {A : Type} (p : A -> bool) (l : list A) (x : A) :
  In x l -> p x = true -> exists y ys, filter p l = y :: ys.
Proof.
  intros Hin Hp. assert (H : In x (filter p l)) by (apply filter_In; now split).
  destruct (filter p l) as [|y ys]; [destruct H | eauto].
Qed.

Lemma filter_filter_comm {A : Type} (p q : A -> bool) (l : list A) :
  filter p (filter q l) = filter q (filter p l).
Proof.
  induction l as [|x l IH]; simpl; [reflexivity|].
  destruct (q x) eqn:Hq, (p x) eqn:Hp; simpl; rewrite ?Hq, ?Hp, IH; reflexivity.
Qed.

Lemma with_tables_same (s : db) : with_tables (companies s) (jobs s) s = s.
Proof. destruct s; reflexivity. Qed.

(** ** Job.get *)

Lemma Job_get_rows (id : value) (s : db) :
  Job.get id s
  = match coerce TInt id with
    | Err e => (Err e, s)
    | Ok _ =>
        match filter (job_has_id id) (jobs s) with
        | [] => (Err (NotFoundError ("There is no job with id: " ++ to_string id)), s)
        | j :: _ => (Ok j, s)
        end
    end.
Proof.
  unfold Job.get, bind, query_select_job. rewrite select_where_id.
  destruct (coerce TInt id) as [kd|e]; [|reflexivity].
  destruct (filter _ (jobs s)); reflexivity.
Qed.



(** ** remove *)

Lemma Job_remove_rows (id : value) (s : db) :
  Job.remove id s
  = match coerce TInt id with
    | Err e => (Err e, s)
    | Ok _ =>
        match filter (job_has_id id) (jobs s) with
        | [] => (Err (NotFoundError ("No job: " ++ to_string id)), s)
        | _ :: _ =>
            if constraints s (companies s) (filter (fun j => negb (job_has_id id j)) (jobs s))
            then (Ok tt,
                  with_tables (companies s)
                              (filter (fun j => negb (job_has_id id j)) (jobs s)) s)
            else (Err (DatabaseError integrity_constraint_violation), s)
        end
    end.
Proof.
  unfold Job.remove, bind, query_delete_jobs. rewrite delete_where_id.
  destruct (coerce TInt id) as [kd|e]; [|reflexivity].
  destruct (filter (job_has_id id) (jobs s)) as [|j rows]; [reflexivity|].
  destruct (constraints s _ _); reflexivity.
Qed.

Lemma Company_remove_rows (handle : value) (s : db) :
  Company.remove handle s
  = match filter (company_has_handle handle) (companies s) with
    | [] => (Err (NotFoundError ("No company: " ++ to_string handle)), s)
    | _ :: _ =>
        if constraints s (filter (fun c => negb (company_has_handle handle c)) (companies s))
                       (jobs s)
        then (Ok tt,
              with_tables (filter (fun c => negb (company_has_handle handle c)) (companies s))
                          (jobs s) s)
        else (Err (DatabaseError integrity_constraint_violation), s)
    end.
Proof.
  unfold Company.remove, bind, query_delete_companies. rewrite delete_where_handle.
  destruct (filter (company_has_handle handle) (companies s)) as [|c rows]; [reflexivity|].
  destruct (constraints s _ _); reflexivity.
Qed.



(** X6: after a successful [Job.remove id], [Job.get id] fails with
    NotFoundError, and a job of another id that [Job.get] returned before is
    still returned. *)
Theorem Job_remove_then_get (id : value) (s : db) :
  fst (Job.remove id s) = Ok tt ->
  fst (Job.get id (snd (Job.remove id s)))
  = Err (NotFoundError ("There is no job with id: " ++ to_string id))
  /\ (forall (id' : value) (j : job),
        fst (Job.get id' s) = Ok j ->
        job_has_id id j = false ->
        fst (Job.get id' (snd (Job.remove id s))) = Ok j).
Proof.
  rewrite Job_remove_rows.
  destruct (coerce TInt id) as [kd|e] eqn:Hkd; [|discriminate].
  destruct (filter (job_has_id id) (jobs s)) as [|j0 rows] eqn:Hf; [discriminate|].
  destruct (constraints s _ _); [|discriminate]. intros _. cbn [snd].
  split.
  - rewrite Job_get_rows, Hkd. cbn [jobs with_tables].
    rewrite filter_none; [reflexivity|].
    intros j Hj. apply filter_In in Hj. destruct Hj as [_ Hj].
    now apply negb_true_iff in Hj.
  - intros id' j. rewrite !Job_get_rows. cbn [jobs with_tables].
    destruct (coerce TInt id') as [kd'|e']; [|discriminate].
    rewrite filter_filter_comm.
    destruct (filter (job_has_id id') (jobs s)) as [|j1 rows1]; [discriminate|].
    cbn [fst]. intros H Hj. injection H as ->.
    cbn [filter]. now rewrite Hj.
Qed.

Lemma Job_remove_then_get_witness :
  fst (Job.remove (VNum 1) testDb) = Ok tt
  /\ fst (Job.get (VNum 1) (snd (Job.remove (VNum 1) testDb)))
     = Err (NotFoundError "There is no job with id: 1")
  /\ fst (Job.get (VNum 2) (snd (Job.remove (VNum 1) testDb))) = Ok Job2.
Proof.
  split; [reflexivity|].
  destruct (Job_remove_then_get (VNum 1) testDb eq_refl) as [Hgone Hkept].
  split; [exact Hgone|]. exact (Hkept (VNum 2) Job2 eq_refl eq_refl).
Defined.

(** X7: [Company.remove] deletes the companies with the handle.  When it
    fails the database is as it was; a handle no stored company has gives
    NotFoundError with the message [No company: <handle>]; when it succeeds
    some stored company had the handle and the companies table is the old
    one without the companies of that handle, in the stored order; and it
    succeeds whenever a stored company has the handle and the server accepts
    the deletion. *)
Theorem Company_remove_by_handle (handle : value) (s : db) :
  (forall e : error, fst (Company.remove handle s) = Err e -> snd (Company.remove handle s) = s)
  /\ ((forall c : company, In c (companies s) -> company_has_handle handle c = false) ->
      fst (Company.remove handle s)
      = Err (NotFoundError ("No company: " ++ to_string handle)))
  /\ (fst (Company.remove handle s) = Ok tt ->
      (exists c : company, In c (companies s) /\ company_has_handle handle c = true)
      /\ companies (snd (Company.remove handle s))
         = filter (fun c => negb (company_has_handle handle c)) (companies s))
  /\ (forall c : company,
        In c (companies s) -> company_has_handle handle c = true ->
        constraints s (filter (fun c => negb (company_has_handle handle c)) (companies s))
                    (jobs s) = true ->
        fst (Company.remove handle s) = Ok tt).
Proof.
  rewrite Company_remove_rows.
  split; [|split; [|split]].
  - intros e. destruct (filter (company_has_handle handle) (companies s)); [reflexivity|].
    destruct (constraints s _ _); [discriminate | reflexivity].
  - intros Hnone. now rewrite (filter_none _ _ Hnone).
  - destruct (filter (company_has_handle handle) (companies s)) as [|c rows] eqn:Hf;
      [discriminate|].
    destruct (constraints s _ _); [|discriminate]. intros _.
    split; [|reflexivity].
    exists c. apply (filter_In (company_has_handle handle)). rewrite Hf. now left.
  - intros c Hin Hc Hcons.
    destruct (filter_some _ _ _ Hin Hc) as [y [ys ->]]. now rewrite Hcons.
Qed.

Lemma Company_remove_by_handle_witness :
  fst (Company.remove (VStr "nope") testDb) = Err (NotFoundError "No company: nope")
  /\ fst (Company.remove (VStr "c1") testDb) = Ok tt
  /\ companies (snd (Company.remove (VStr "c1") testDb)) = [C2co].
Proof.
  destruct (Company_remove_by_handle (VStr "nope") testDb) as [_ [Hnone _]].
  destruct (Company_remove_by_handle (VStr "c1") testDb) as [_ [_ [Hdone Hok]]].
  split; [apply Hnone; intros c [<-|[<-|[]]]; reflexivity|].
  split; [exact (Hok C1co (or_intror (or_introl eq_refl)) eq_refl eq_refl)|].
  exact (proj2 (Hdone eq_refl)).
Defined.

(** ** create *)

Lemma Company_create_rows (data : object) (s : db) :
  Company.create data s
  = match filter (company_has_handle (prop data "handle")) (companies s) with
    | _ :: _ =>
        (Err (BadRequestError ("Duplicate company: " ++ to_string (prop data "handle"))), s)
    | [] =>
        match insert_company [prop data "handle"; prop data "name";
                              prop data "description"; prop data "numEmployees";
                              prop data "logoUrl"] with
        | Err e => (Err e, s)
        | Ok c =>
            if constraints s (companies s ++ [c]) (jobs s)
            then (Ok (Some c), with_tables (companies s ++ [c]) (jobs s) s)
            else (Err (DatabaseError integrity_constraint_violation), s)
        end
    end.
Proof.
  unfold Company.create, bind at 1, query_select_handle. rewrite select_where_handle.
  destruct (filter _ (companies s)) as [|c rows]; [|reflexivity].
  cbn [map first_row nth_error]. unfold bind, query_insert_company.
  destruct (insert_company _) as [c|e]; [|reflexivity].
  destruct (constraints s _ _); reflexivity.
Qed.

Lemma insert_company_values (handle name description numEmployees logoUrl : value)
    (h n d : string) (ne : option Z) :
  pg_text handle = Some h ->
  pg_text name = Some n ->
  pg_text description = Some d ->
  coerce TInt numEmployees = Ok (opt_val DInt ne) ->
  insert_company [handle; name; description; numEmployees; logoUrl]
  = Ok {| co_handle := h; co_name := n; co_description := d;
          co_numEmployees := ne; co_logoUrl := pg_text logoUrl |}.
Proof.
  intros Hh Hn Hd Hne. unfold insert_company, bind_values.
  cbn [length Nat.eqb combine mapM fst snd].
  unfold coerce at 1 2 3. rewrite Hh, Hn, Hd, Hne.
  unfold coerce. destruct (pg_text logoUrl); destruct ne; reflexivity.
Qed.

(** X8: [Company.create] with the handle of a stored company fails with
    BadRequestError, message [Duplicate company: <handle>], and the database
    is as it was: no INSERT has run. *)
Theorem Company_create_duplicate (data : object) (s : db) (c : company) :
  In c (companies s) ->
  company_has_handle (prop data "handle") c = true ->
  Company.create data s
  = (Err (BadRequestError ("Duplicate company: " ++ to_string (prop data "handle"))), s).
Proof.
  intros Hin Hc. rewrite Company_create_rows.
  now destruct (filter_some _ _ _ Hin Hc) as [y [ys ->]].
Qed.

Lemma Company_create_duplicate_witness :
  In C1co (companies testDb)
  /\ Company.create [("handle", VStr "c1"); ("name", VStr "New");
                     ("description", VStr "New Description");
                     ("numEmployees", VNum 1); ("logoUrl", VStr "http://new.img")] testDb
     = (Err (BadRequestError "Duplicate company: c1"), testDb).
Proof.
  split; [right; left; reflexivity|].
  exact (Company_create_duplicate
           [("handle", VStr "c1"); ("name", VStr "New");
            ("description", VStr "New Description");
            ("numEmployees", VNum 1); ("logoUrl", VStr "http://new.img")]
           testDb C1co (or_intror (or_introl eq_refl)) eq_refl).
Defined.

Lemma Company_create_fresh (data : object) (s : db) (h n d : string) (ne : option Z) :
  pg_text (prop data "handle") = Some h ->
  pg_text (prop data "name") = Some n ->
  pg_text (prop data "description") = Some d ->
  coerce TInt (prop data "numEmployees") = Ok (opt_val DInt ne) ->
  (forall c : company, In c (companies s) -> co_handle c <> h) ->
  let company := {| co_handle := h; co_name := n; co_description := d;
                    co_numEmployees := ne;
                    co_logoUrl := pg_text (prop data "logoUrl") |} in
  constraints s (companies s ++ [company]) (jobs s) = true ->
  Company.create data s
  = (Ok (Some company), with_tables (companies s ++ [company]) (jobs s) s).
Proof.
  intros Hh Hn Hd Hne Hfresh company Hcons.
  rewrite Company_create_rows.
  rewrite filter_none.
  - rewrite (insert_company_values _ _ _ _ _ h n d ne Hh Hn Hd Hne).
    fold company. now rewrite Hcons.
  - intros c Hc. unfold company_has_handle. rewrite Hh.
    apply String.eqb_neq. now apply Hfresh.
Qed.

(** X9: with a handle no stored company has, text for handle, name and
    description, a numEmployees that reads as an integer or NULL, and a row
    the server's constraints accept, [Company.create] returns the row made
    of the five fields of [data] and appends it to the companies, the jobs
    being as they were; a second [create] with the same handle is then
    refused as a duplicate and changes nothing. *)
Theorem Company_create_stores (data : object) (s : db) (h n d : string) (ne : option Z) :
  pg_text (prop data "handle") = Some h ->
  pg_text (prop data "name") = Some n ->
  pg_text (prop data "description") = Some d ->
  coerce TInt (prop data "numEmployees") = Ok (opt_val DInt ne) ->
  (forall c : company, In c (companies s) -> co_handle c <> h) ->
  let company := {| co_handle := h; co_name := n; co_description := d;
                    co_numEmployees := ne;
                    co_logoUrl := pg_text (prop data "logoUrl") |} in
  constraints s (companies s ++ [company]) (jobs s) = true ->
  Company.create data s
  = (Ok (Some company), with_tables (companies s ++ [company]) (jobs s) s)
  /\ (forall data' : object,
        prop data' "handle" = prop data "handle" ->
        Company.create data' (snd (Company.create data s))
        = (Err (BadRequestError ("Duplicate company: " ++ to_string (prop data "handle"))),
           snd (Company.create data s))).
Proof.
  intros Hh Hn Hd Hne Hfresh company Hcons.
  pose proof (Company_create_fresh data s h n d ne Hh Hn Hd Hne Hfresh Hcons) as E.
  fold company in E.
  split; [exact E|].
  intros data' Hsame. rewrite E. cbn [snd].
  rewrite Company_create_rows, Hsame.
  assert (Hin : In company (companies (with_tables (companies s ++ [company]) (jobs s) s)))
    by (cbn [companies with_tables]; apply in_or_app; right; now left).
  assert (Hc : company_has_handle (prop data "handle") company = true)
    by (unfold company_has_handle; rewrite Hh; apply String.eqb_refl).
  now destruct (filter_some _ _ _ Hin Hc) as [y [ys ->]].
Qed.

Lemma testDb_no_new (c : company) : In c (companies testDb) -> co_handle c <> "new".
Proof.
  intros [<-|[<-|[]]]; discriminate.
Defined.

Lemma Company_create_stores_witness :
  (forall c : company, In c (companies testDb) -> co_handle c <> "new")
  /\ fst (Company.create newCompany testDb)
     = Ok (Some {| co_handle := "new"; co_name := "New";
                   co_description := "New Description"; co_numEmployees := Some 1%Z;
                   co_logoUrl := Some "http://new.img" |})
  /\ companies (snd (Company.create newCompany testDb))
     = [C2co; C1co; {| co_handle := "new"; co_name := "New";
                       co_description := "New Description"; co_numEmployees := Some 1%Z;
                       co_logoUrl := Some "http://new.img" |}]
  /\ fst (Company.create newCompany (snd (Company.create newCompany testDb)))
     = Err (BadRequestError "Duplicate company: new").
Proof.
  split; [exact testDb_no_new|].
  destruct (Company_create_stores newCompany testDb "new" "New" "New Description"
              (Some 1%Z) eq_refl eq_refl eq_refl eq_refl testDb_no_new eq_refl)
    as [Hstored Hagain].
  split; [exact (f_equal fst Hstored)|].
  split; [exact (f_equal (fun r => companies (snd r)) Hstored)|].
  exact (f_equal fst (Hagain newCompany eq_refl)).
Defined.

(** X10: [Company.create] with a fresh handle followed by [Company.remove]
    of that handle succeeds and gives back the companies table as it was
    before the two calls. *)
Theorem Company_create_then_remove (data : object) (s : db) (h n d : string)
    (ne : option Z) :
  pg_text (prop data "handle") = Some h ->
  pg_text (prop data "name") = Some n ->
  pg_text (prop data "description") = Some d ->
  coerce TInt (prop data "numEmployees") = Ok (opt_val DInt ne) ->
  (forall c : company, In c (companies s) -> co_handle c <> h) ->
  constraints s (companies s
                 ++ [{| co_handle := h; co_name := n; co_description := d;
                        co_numEmployees := ne;
                        co_logoUrl := pg_text (prop data "logoUrl") |}])
              (jobs s) = true ->
  constraints s (companies s) (jobs s) = true ->
  let run := (created <- Company.create data ;; Company.remove (prop data "handle")) s in
  fst run = Ok tt /\ companies (snd run) = companies s.
Proof.
  intros Hh Hn Hd Hne Hfresh Hcons Hcons0 run. subst run.
  pose proof (Company_create_fresh data s h n d ne Hh Hn Hd Hne Hfresh Hcons) as E.
  unfold bind. rewrite E. rewrite Company_remove_rows.
  cbn [companies jobs constraints with_tables].
  assert (Hkeep : filter (fun c => negb (company_has_handle (prop data "handle") c))
                         (companies s) = companies s).
  { apply filter_keeps_all. intros c Hc. unfold company_has_handle. rewrite Hh.
    apply negb_true_iff, String.eqb_neq. now apply Hfresh. }
  assert (Hnone : filter (company_has_handle (prop data "handle")) (companies s) = []).
  { apply filter_none. intros c Hc. unfold company_has_handle. rewrite Hh.
    apply String.eqb_neq. now apply Hfresh. }
  assert (Hnew : company_has_handle (prop data "handle")
                   {| co_handle := h; co_name := n; co_description := d;
                      co_numEmployees := ne;
                      co_logoUrl := pg_text (prop data "logoUrl") |} = true).
  { unfold company_has_handle. rewrite Hh. apply String.eqb_refl. }
  rewrite !filter_app, Hkeep, Hnone. cbn [filter]. rewrite Hnew.
  cbn [negb List.app]. rewrite List.app_nil_r, Hcons0.
  split; reflexivity.
Qed.

Lemma Company_create_then_remove_witness :
  (forall c : company, In c (companies testDb) -> co_handle c <> "new")
  /\ fst ((created <- Company.create newCompany ;; Company.remove (VStr "new")) testDb)
     = Ok tt
  /\ companies (snd ((created <- Company.create newCompany ;;
                      Company.remove (VStr "new")) testDb))
     = [C2co; C1co].
Proof.
  split; [exact testDb_no_new|].
  exact (Company_create_then_remove newCompany testDb "new" "New" "New Description"
           (Some 1%Z) eq_refl eq_refl eq_refl eq_refl testDb_no_new eq_refl eq_refl).
Defined.

Lemma insert_job_values (serial : Z) (title salary equity companyHandle : value)
    (t ch : string) (sal : option Z) (equ : option numeric) :
  pg_text title = Some t ->
  pg_text companyHandle = Some ch ->
  coerce TInt salary = Ok (opt_val DInt sal) ->
  coerce TNumeric equity = Ok (opt_val DNumeric equ) ->
  insert_job serial [title; salary; equity; companyHandle]
  = Ok {| job_id := serial; job_title := t; job_salary := sal; job_equity := equ;
          job_companyHandle := ch |}.
Proof.
  intros Ht Hch Hsal Heq. unfold insert_job, bind_values.
  cbn [length Nat.eqb combine mapM fst snd].
  unfold coerce at 1 4. rewrite Ht, Hch, Hsal, Heq.
  destruct sal, equ; reflexivity.
Qed.

Lemma Job_create_rows (serial : Z) (data : object) (s : db) :
  Job.create serial data s
  = match insert_job serial [prop data "title"; prop data "salary"; prop data "equity";
                             prop data "companyHandle"] with
    | Err e => (Err e, s)
    | Ok j =>
        if constraints s (companies s) (jobs s ++ [j])
        then (Ok (Some j), with_tables (companies s) (jobs s ++ [j]) s)
        else (Err (DatabaseError integrity_constraint_violation), s)
    end.
Proof.
  unfold Job.create, bind, query_insert_job.
  destruct (insert_job _ _) as [j|e]; [|reflexivity].
  destruct (constraints s _ _); reflexivity.
Qed.

Lemma Job_create_fresh (serial : Z) (data : object) (s : db) (t ch : string)
    (sal : option Z) (equ : option numeric) :
  pg_text (prop data "title") = Some t ->
  pg_text (prop data "companyHandle") = Some ch ->
  coerce TInt (prop data "salary") = Ok (opt_val DInt sal) ->
  coerce TNumeric (prop data "equity") = Ok (opt_val DNumeric equ) ->
  let created := {| job_id := serial; job_title := t; job_salary := sal; job_equity := equ;
                    job_companyHandle := ch |} in
  constraints s (companies s) (jobs s ++ [created]) = true ->
  Job.create serial data s
  = (Ok (Some created), with_tables (companies s) (jobs s ++ [created]) s).
Proof.
  intros Ht Hch Hsal Heq created Hcons.
  rewrite Job_create_rows, (insert_job_values serial _ _ _ _ t ch sal equ Ht Hch Hsal Heq).
  fold created. now rewrite Hcons.
Qed.

(** X11: with text for title and companyHandle, a salary that reads as an
    integer or NULL, an equity that reads as a NUMERIC or NULL, and a row the
    server's constraints accept, [Job.create] returns the row made of the
    four fields of [data] under the id the sequence gave, and appends it to
    the jobs, the companies being as they were; [Job.get] by that id then
    returns the row when no job had the id before; and every job [Job.get]
    returned before is still returned. *)
Theorem Job_create_stores (serial : Z) (data : object) (s : db) (t ch : string)
    (sal : option Z) (equ : option numeric) :
  pg_text (prop data "title") = Some t ->
  pg_text (prop data "companyHandle") = Some ch ->
  coerce TInt (prop data "salary") = Ok (opt_val DInt sal) ->
  coerce TNumeric (prop data "equity") = Ok (opt_val DNumeric equ) ->
  let created := {| job_id := serial; job_title := t; job_salary := sal; job_equity := equ;
                    job_companyHandle := ch |} in
  constraints s (companies s) (jobs s ++ [created]) = true ->
  Job.create serial data s
  = (Ok (Some created), with_tables (companies s) (jobs s ++ [created]) s)
  /\ (forall id : value,
        coerce TInt id = Ok (DInt serial) ->
        (forall j : job, In j (jobs s) -> job_id j <> serial) ->
        fst (Job.get id (snd (Job.create serial data s))) = Ok created)
  /\ (forall (id : value) (j : job),
        fst (Job.get id s) = Ok j ->
        fst (Job.get id (snd (Job.create serial data s))) = Ok j).
Proof.
  intros Ht Hch Hsal Heq created Hcons.
  pose proof (Job_create_fresh serial data s t ch sal equ Ht Hch Hsal Heq Hcons) as E.
  fold created in E.
  split; [exact E|]. rewrite E. cbn [snd]. split.
  - intros id Hid Hfresh. rewrite Job_get_rows, Hid. cbn [jobs with_tables].
    rewrite filter_app, filter_none.
    + cbn [filter List.app]. unfold job_has_id. rewrite Hid. cbn [job_id created].
      now rewrite Z.eqb_refl.
    + intros j Hj. unfold job_has_id. rewrite Hid. apply Z.eqb_neq. now apply Hfresh.
  - intros id j. rewrite !Job_get_rows. cbn [jobs with_tables].
    destruct (coerce TInt id); [|discriminate].
    rewrite filter_app.
    destruct (filter (job_has_id id) (jobs s)) as [|j1 rows1]; [discriminate|].
    cbn [fst List.app]. intros H. exact H.
Qed.

Lemma testDb_no_4 (j : job) : In j (jobs testDb) -> job_id j <> 4%Z.
Proof.
  intros [<-|[<-|[<-|[]]]]; discriminate.
Defined.

Lemma Job_create_stores_witness :
  (forall j : job, In j (jobs testDb) -> job_id j <> 4%Z)
  /\ fst (Job.create 4 newJob testDb)
     = Ok (Some {| job_id := 4; job_title := "New"; job_salary := Some 50%Z;
                   job_equity := Some {| unscaled := 5; scale := 1 |};
                   job_companyHandle := "c1" |})
  /\ fst (Job.get (VNum 4) (snd (Job.create 4 newJob testDb)))
     = Ok {| job_id := 4; job_title := "New"; job_salary := Some 50%Z;
             job_equity := Some {| unscaled := 5; scale := 1 |};
             job_companyHandle := "c1" |}
  /\ fst (Job.get (VNum 1) (snd (Job.create 4 newJob testDb))) = Ok Job1.
Proof.
  split; [exact testDb_no_4|].
  destruct (Job_create_stores 4 newJob testDb "New" "c1" (Some 50%Z)
              (Some {| unscaled := 5; scale := 1 |}) eq_refl eq_refl eq_refl eq_refl
              eq_refl) as [Hstored [Hget Hold]].
  split; [exact (f_equal fst Hstored)|].
  split; [exact (Hget (VNum 4) eq_refl testDb_no_4)|].
  exact (Hold (VNum 1) Job1 eq_refl).
Defined.

(** X12: [Job.create] followed by [Job.remove] of the id the sequence gave,
    when no job had that id before, succeeds and gives back the database as
    it was before the two calls. *)
Theorem Job_create_then_remove (serial : Z) (data : object) (s : db) (t ch : string)
    (sal : option Z) (equ : option numeric) (id : value) :
  pg_text (prop data "title") = Some t ->
  pg_text (prop data "companyHandle") = Some ch ->
  coerce TInt (prop data "salary") = Ok (opt_val DInt sal) ->
  coerce TNumeric (prop data "equity") = Ok (opt_val DNumeric equ) ->
  coerce TInt id = Ok (DInt serial) ->
  (forall j : job, In j (jobs s) -> job_id j <> serial) ->
  constraints s (companies s)
              (jobs s ++ [{| job_id := serial; job_title := t; job_salary := sal;
                             job_equity := equ; job_companyHandle := ch |}]) = true ->
  constraints s (companies s) (jobs s) = true ->
  (created <- Job.create serial data ;; Job.remove id) s = (Ok tt, s).
Proof.
  intros Ht Hch Hsal Heq Hid Hfresh Hcons Hcons0.
  pose proof (Job_create_fresh serial data s t ch sal equ Ht Hch Hsal Heq Hcons) as E.
  unfold bind. rewrite E. rewrite Job_remove_rows, Hid.
  cbn [companies jobs constraints with_tables].
  assert (Hkeep : filter (fun j => negb (job_has_id id j)) (jobs s) = jobs s).
  { apply filter_keeps_all. intros j Hj. unfold job_has_id. rewrite Hid.
    apply negb_true_iff, Z.eqb_neq. now apply Hfresh. }
  assert (Hnone : filter (job_has_id id) (jobs s) = []).
  { apply filter_none. intros j Hj. unfold job_has_id. rewrite Hid.
    apply Z.eqb_neq. now apply Hfresh. }
  assert (Hnew : job_has_id id {| job_id := serial; job_title := t; job_salary := sal;
                                  job_equity := equ; job_companyHandle := ch |} = true).
  { unfold job_has_id. rewrite Hid. apply Z.eqb_refl. }
  rewrite !filter_app, Hkeep, Hnone. cbn [filter]. rewrite Hnew.
  cbn [negb List.app]. rewrite List.app_nil_r, Hcons0.
  f_equal. destruct s; reflexivity.
Qed.

Lemma Job_create_then_remove_witness :
  (forall j : job, In j (jobs testDb) -> job_id j <> 4%Z)
  /\ (created <- Job.create 4 newJob ;; Job.remove (VNum 4)) testDb = (Ok tt, testDb).
Proof.
  split; [exact testDb_no_4|].
  exact (Job_create_then_remove 4 newJob testDb "New" "c1" (Some 50%Z)
           (Some {| unscaled := 5; scale := 1 |}) (VNum 4)
           eq_refl eq_refl eq_refl eq_refl eq_refl testDb_no_4 eq_refl eq_refl).
Defined.

(** ** update of an existing row *)

Lemma mapM_bind_assignments (sch : schema) (jsToSql : object) (post : list value)
    (data : object) :
  forallb (field_ok sch jsToSql) data = true ->
  forall pre : list value,
    mapM (bind_assignment sch (pre ++ Object_values data ++ post))
         (combine (map (physical jsToSql) (Object_keys data))
                  (seq (length pre + 1) (length (Object_keys data))))
    = Ok (assignments sch jsToSql data).
Proof.
  induction data as [|[k v] data IH]; intros Hok pre.
  - reflexivity.
  - cbn [forallb] in Hok. apply andb_prop in Hok. destruct Hok as [Hkv Hdata].
    unfold field_ok in Hkv. cbn [fst snd] in Hkv.
    destruct (lookup_col sch (physical jsToSql k)) as [ty|] eqn:Hty; [|discriminate].
    destruct (coerce ty v) as [d|e] eqn:Hd; [|discriminate].
    specialize (IH Hdata (pre ++ [v])%list).
    cbn [Object_keys Object_values map fst snd length seq combine mapM assignments flat_map].
    unfold bind_assignment at 1. cbn [fst snd]. rewrite Hty, Hd.
    unfold bind_param.
    replace (length pre + 1 - 1) with (length pre) by lia.
    rewrite nth_error_app2 by lia. rewrite Nat.sub_diag.
    change (nth_error ((v :: map snd data) ++ post) 0) with (Some v).
    cbv iota. rewrite Hd.
    replace (pre ++ (v :: map snd data) ++ post)%list
      with ((pre ++ [v]) ++ Object_values data ++ post)%list
      by (rewrite <- List.app_assoc; reflexivity).
    replace (S (length pre + 1)) with (length (pre ++ [v])%list + 1)
      by (rewrite length_app; simpl; lia).
    unfold Object_keys in IH. rewrite IH. reflexivity.
Qed.

Lemma assignments_names (sch : schema) (jsToSql data : object) :
  forallb (field_ok sch jsToSql) data = true ->
  map fst (assignments sch jsToSql data) = map (physical jsToSql) (Object_keys data).
Proof.
  induction data as [|[k v] data IH]; intros Hok; [reflexivity|].
  cbn [forallb] in Hok. apply andb_prop in Hok. destruct Hok as [Hkv Hdata].
  unfold field_ok in Hkv. cbn [fst snd] in Hkv.
  cbn [assignments flat_map fst snd Object_keys map].
  destruct (lookup_col sch (physical jsToSql k)) as [ty|]; [|discriminate].
  destruct (coerce ty v) as [d|e]; [|discriminate].
  cbn [List.app map fst]. f_equal. now apply IH.
Qed.

Lemma assignments_In (sch : schema) (jsToSql data : object) (k : string) (v : value)
    (ty : coltype) (d : dbval) :
  In (k, v) data ->
  lookup_col sch (physical jsToSql k) = Some ty ->
  coerce ty v = Ok d ->
  In (physical jsToSql k, d) (assignments sch jsToSql data).
Proof.
  intros Hin Hty Hd. unfold assignments. apply in_flat_map.
  exists (k, v). split; [exact Hin|]. cbn [fst snd]. rewrite Hty, Hd. now left.
Qed.

Lemma has_dup_NoDup (l : list string) : has_dup l = false -> NoDup l.
Proof.
  induction l as [|x l IH]; intros H; [constructor|].
  cbn [has_dup] in H. apply orb_false_iff in H. destruct H as [Hx Hl].
  constructor; [|now apply IH].
  intros Hin. assert (Ht : existsb (String.eqb x) l = true).
  { apply existsb_exists. exists x. split; [exact Hin | apply String.eqb_refl]. }
  congruence.
Qed.

Lemma update_rows_one {R : Type} (matches : R -> bool) (upd : R -> option R)
    (pre post : list R) (r r' : R) :
  matches r = true ->
  (forall x, In x (pre ++ post)%list -> matches x = false) ->
  upd r = Some r' ->
  update_rows matches upd (pre ++ r :: post)%list = Some ([r'], (pre ++ r' :: post)%list).
Proof.
  intros Hr Hothers Hupd.
  induction pre as [|x pre IH].
  - cbn [List.app update_rows].
    rewrite update_rows_no_match by (intros y Hy; apply Hothers; exact Hy).
    now rewrite Hr, Hupd.
  - cbn [List.app update_rows].
    rewrite IH by (intros y Hy; apply Hothers; now right).
    now rewrite (Hothers x (or_introl eq_refl)).
Qed.

Lemma update_where_accepted {R : Type} (sch : schema) (col : R -> string -> dbval)
    (set : R -> string -> dbval -> option R) (le : string -> string -> bool)
    (key : string) (kty : coltype) (jsToSql data : object) (id : value) (kd : dbval)
    (rows : list R) :
  data <> [] ->
  plain_names sch = true ->
  well_typed sch jsToSql data = true ->
  lookup_col sch key = Some kty ->
  coerce kty id = Ok kd ->
  update_where sch col set le key
               (join ", " (cols (Object_keys data) jsToSql))
               ("$" ++ dec (length (Object_values data) + 1))
               (Object_values data ++ [id])%list rows
  = match update_rows (fun r => eval_op le OpEq (col r key) kd)
                      (assign_all set (assignments sch jsToSql data)) rows with
    | None => Err (DatabaseError not_null_violation)
    | Some out => Ok out
    end.
Proof.
  intros Hne Hplain Hwt Hkey Hid.
  unfold well_typed in Hwt. apply andb_prop in Hwt. destruct Hwt as [Hdup Hok].
  apply negb_true_iff in Hdup.
  destruct (well_typed_names sch jsToSql data Hplain Hok) as [Hq He].
  assert (Hkeys : Object_keys data <> []) by (destruct data; [congruence|discriminate]).
  unfold update_where.
  rewrite (parse_set_cols _ _ Hkeys Hq He).
  unfold parse_placeholder. cbn [String.append strip_prefix]. rewrite Ascii.eqb_refl.
  rewrite parse_nat_dec.
  assert (Hlen : length (map (physical jsToSql) (Object_keys data))
                 = length (Object_keys data)) by apply length_map.
  rewrite has_dup_map_fst_combine, map_snd_combine, Hlen, Hdup.
  assert (Hlv : length (Object_values data) = length (Object_keys data))
    by (unfold Object_values, Object_keys; now rewrite !length_map).
  rewrite length_app, Hlv. cbn [length].
  rewrite placeholders_ok_update.
  pose proof (mapM_bind_assignments sch jsToSql [id] data Hok []) as Hbound.
  change (mapM (bind_assignment sch (Object_values data ++ [id]))
               (combine (map (physical jsToSql) (Object_keys data))
                        (seq 1 (length (Object_keys data))))
          = Ok (assignments sch jsToSql data)) in Hbound.
  rewrite Hbound.
  unfold bind_assignment. cbn [fst snd]. rewrite Hkey.
  unfold bind_param. replace (length (Object_keys data) + 1 - 1)
    with (length (Object_values data)) by lia.
  rewrite nth_error_app2 by lia. rewrite Nat.sub_diag. cbn [nth_error].
  now rewrite Hid.
Qed.

(** The columns of a row after a run of assignments to distinct columns. *)
Section Assignments.

Context {R : Type} (col : R -> string -> dbval) (set : R -> string -> dbval -> option R).

Hypothesis set_col : forall (r r' : R) (c : string) (d : dbval),
    set r c d = Some r' -> col r' c = d.
Hypothesis set_others : forall (r r' : R) (c c' : string) (d : dbval),
    set r c d = Some r' -> c' <> c -> col r' c' = col r c'.

Lemma assign_all_cols (asg : list (string * dbval)) :
  NoDup (map fst asg) ->
  forall r r' : R,
    assign_all set asg r = Some r' ->
    (forall (c : string) (d : dbval), In (c, d) asg -> col r' c = d)
    /\ (forall c : string, ~ In c (map fst asg) -> col r' c = col r c).
Proof.
  induction asg as [|[c0 d0] asg IH]; intros Hnd r r' Hrun.
  - cbn [assign_all] in Hrun. injection Hrun as <-. split; [intros c d []|reflexivity].
  - cbn [assign_all] in Hrun. cbn [map fst] in Hnd. inversion Hnd as [|x l Hc0 Hnd']; subst.
    destruct (set r c0 d0) as [r1|] eqn:Hset; [|discriminate].
    destruct (IH Hnd' r1 r' Hrun) as [Hin Hout]. split.
    + intros c d [E|Hcd].
      * injection E as <- <-. rewrite (Hout c0 Hc0). exact (set_col r r1 c0 d0 Hset).
      * now apply Hin.
    + intros c Hc. cbn [map fst In] in Hc.
      rewrite Hout by tauto. apply (set_others r r1 c0 c d0 Hset). intros ->; tauto.
Qed.

End Assignments.

Lemma job_set_col (j j' : job) (c : string) (d : dbval) :
  job_set j c d = Some j' -> job_col j' c = d.
Proof.
  unfold job_set, job_col.
  repeat (destruct (String.eqb c _); [destruct d; intros H; inversion H; reflexivity|]).
  discriminate.
Qed.

Lemma job_set_others (j j' : job) (c c' : string) (d : dbval) :
  job_set j c d = Some j' -> c' <> c -> job_col j' c' = job_col j c'.
Proof.
  unfold job_set, job_col. intros Hset Hc.
  repeat other_column c c' Hset Hc.
  discriminate.
Qed.



Lemma Job_update_accepted (id : value) (data : object) (s : db)
    (pre post : list job) (j j' : job) :
  data <> [] ->
  well_typed jobs_schema [] data = true ->
  jobs s = (pre ++ j :: post)%list ->
  job_has_id id j = true ->
  (forall x : job, In x (pre ++ post)%list -> job_has_id id x = false) ->
  assign_all job_set (assignments jobs_schema [] data) j = Some j' ->
  constraints s (companies s) (pre ++ j' :: post)%list = true ->
  Job.update id data s
  = (Ok j',
     with_tables (companies s) (pre ++ j' :: post)%list
       (logged (UpdateJobs (join ", " (cols (Object_keys data) []))
                           ("$" ++ dec (length (Object_values data) + 1))
                           (Object_values data ++ [id])%list) s)).
Proof.
  intros Hne Hwt Hrows Hj Hothers Hasg Hcons.
  assert (Hkd : exists z, coerce TInt id = Ok (DInt z)).
  { unfold job_has_id in Hj. destruct (coerce TInt id) as [[|z|t|q]|e]; try discriminate.
    now exists z. }
  destruct Hkd as [z Hkd].
  rewrite (Job_update_query id data s Hne). unfold updated, query_update_jobs.
  rewrite (update_where_accepted jobs_schema job_col job_set (collate s) "id" TInt []
             data id (DInt z) (jobs s) Hne eq_refl Hwt eq_refl Hkd).
  rewrite Hrows.
  rewrite (update_rows_one _ _ pre post j j').
  - rewrite Hcons. reflexivity.
  - rewrite (eval_eq_job_id _ id _ j Hkd). exact Hj.
  - intros x Hx. rewrite (eval_eq_job_id _ id _ x Hkd). now apply Hothers.
  - exact Hasg.
Qed.

Lemma Job_assigned_cols (data : object) (j j' : job) :
  well_typed jobs_schema [] data = true ->
  assign_all job_set (assignments jobs_schema [] data) j = Some j' ->
  (forall (k : string) (v : value) (ty : coltype) (d : dbval),
     In (k, v) data -> lookup_col jobs_schema k = Some ty -> coerce ty v = Ok d ->
     job_col j' k = d)
  /\ (forall c : string, ~ In c (Object_keys data) -> job_col j' c = job_col j c).
Proof.
  intros Hwt Hasg.
  unfold well_typed in Hwt. apply andb_prop in Hwt.
  destruct Hwt as [Hdup Hok]. apply negb_true_iff in Hdup.
  pose proof (assignments_names jobs_schema [] data Hok) as Hnames.
  assert (Hnd : NoDup (map fst (assignments jobs_schema [] data)))
    by (rewrite Hnames; now apply has_dup_NoDup).
  destruct (assign_all_cols job_col job_set job_set_col job_set_others _ Hnd j j' Hasg)
    as [Hin Hout].
  split.
  - intros k v ty d Hkv Hty Hd. apply Hin.
    exact (assignments_In jobs_schema [] data k v ty d Hkv Hty Hd).
  - intros c Hc. apply Hout. rewrite Hnames.
    replace (map (physical []) (Object_keys data)) with (Object_keys data); [exact Hc|].
    symmetry. apply map_id.
Qed.


Lemma testDb_others_not_1 (x : job) :
  In x ([Job3] ++ [Job2])%list -> job_has_id (VNum 1) x = false.
Proof.
  intros [<-|[<-|[]]]; reflexivity.
Defined.


(** X14: after such an update that does not assign the id, [Job.get] by the
    same id returns the changed row, and [Job.get] by an id that is not the
    row's answers as it did before the update. *)
Theorem Job_update_then_get (id : value) (data : object) (s : db)
    (pre post : list job) (j j' : job) :
  data <> [] ->
  well_typed jobs_schema [] data = true ->
  jobs s = (pre ++ j :: post)%list ->
  job_has_id id j = true ->
  (forall x : job, In x (pre ++ post)%list -> job_has_id id x = false) ->
  assign_all job_set (assignments jobs_schema [] data) j = Some j' ->
  constraints s (companies s) (pre ++ j' :: post)%list = true ->
  ~ In "id" (Object_keys data) ->
  fst (Job.get id (snd (Job.update id data s))) = Ok j'
  /\ (forall id' : value,
        job_has_id id' j = false ->
        fst (Job.get id' (snd (Job.update id data s))) = fst (Job.get id' s)).
Proof.
  intros Hne Hwt Hrows Hj Hothers Hasg Hcons Hid.
  rewrite (Job_update_accepted id data s pre post j j' Hne Hwt Hrows Hj Hothers Hasg Hcons).
  cbn [snd].
  destruct (Job_assigned_cols data j j' Hwt Hasg) as [_ Hout].
  specialize (Hout "id" Hid). change (DInt (job_id j') = DInt (job_id j)) in Hout.
  injection Hout as Hsame.
  assert (Hkey : forall v : value, job_has_id v j' = job_has_id v j)
    by (intros v; unfold job_has_id; now rewrite Hsame).
  split.
  - rewrite Job_get_rows. cbn [jobs with_tables].
    assert (Hkd : exists kd, coerce TInt id = Ok kd).
    { unfold job_has_id in Hj. destruct (coerce TInt id); [eauto | discriminate]. }
    destruct Hkd as [kd ->].
    rewrite filter_app. cbn [filter]. rewrite Hkey, Hj.
    rewrite (filter_none (job_has_id id) pre)
      by (intros x Hx; apply Hothers, in_or_app; now left).
    reflexivity.
  - intros id' Hj'. rewrite !Job_get_rows. cbn [jobs with_tables].
    rewrite Hrows. destruct (coerce TInt id'); [|reflexivity].
    rewrite !filter_app. cbn [filter]. rewrite Hkey, Hj'.
    now destruct (filter (job_has_id id') pre ++ filter (job_has_id id') post)%list.
Qed.

Lemma Job_update_then_get_witness :
  updateData <> []
  /\ ~ In "id" (Object_keys updateData)
  /\ fst (Job.get (VNum 1) (snd (Job.update (VNum 1) updateData testDb))) = Ok Job1_updated
  /\ fst (Job.get (VNum 2) (snd (Job.update (VNum 1) updateData testDb))) = Ok Job2.
Proof.
  assert (Hid : ~ In "id" (Object_keys updateData))
    by (intros [H|[H|[H|[]]]]; discriminate H).
  split; [discriminate|]. split; [exact Hid|].
  destruct (Job_update_then_get (VNum 1) updateData testDb [Job3] [Job2] Job1 Job1_updated
              ltac:(discriminate) eq_refl eq_refl eq_refl testDb_others_not_1
              eq_refl eq_refl Hid) as [Hget Hothers].
  split; [exact Hget|].
  exact (Hothers (VNum 2) eq_refl).
Defined.





(** ** GET /jobs *)


